(** * xbloom-recipe-cli: the request-encryption core and the API operations

    A shallow embedding of [src/xbloom_client.py] (and of the credential
    helper of [src/recipe_maker.py]) together with the properties the
    specification states about them.

    Conventions.
    - A Python [bytes] value is a [list byte]; a Python [str] is the list of
      its Unicode code points ([list N]).
    - A call that may raise returns a [result]; the exception classes that the
      modelled code and libraries raise are the constructors of [exn].
    - The standard library and the [cryptography] package are not part of the
      repository: the calls the client makes into them are modelled after
      their documented behaviour (RFC 4648 for base64, RFC 8017 section 7.2.1
      for RSAES-PKCS1-v1_5, RFC 8259 and the [json] module documentation for
      JSON, RFC 3629 for UTF-8). *)

From Stdlib Require Import String Ascii.
From Stdlib Require Import ZArith NArith PeanoNat List Bool Lia.
From Stdlib.Strings Require Import Byte.
Import ListNotations.

(* Lists, not strings, own these names. *)
Abbreviation length := Datatypes.length (only parsing).
Abbreviation concat := List.concat (only parsing).

(** ** Exceptions and fallible computations *)

Inductive exn : Set :=
| ValueError
| TypeError
| AttributeError
| OSError
| JSONDecodeError
| UnicodeDecodeError
| UnicodeEncodeError
| BinasciiError
| SystemExit.

Inductive result (A : Type) : Type :=
| Ok (a : A)
| Raise (e : exn).

Arguments Ok {A} a.
Arguments Raise {A} e.

Definition bind {A B : Type} (r : result A) (k : A -> result B) : result B :=
  match r with
  | Ok a => k a
  | Raise e => Raise e
  end.

Declare Scope py_scope.
Delimit Scope py_scope with py.
Notation "x <- c ;; k" := (bind c (fun x => k))
  (at level 61, c at next level, right associativity) : py_scope.
Notation "' p <- c ;; k" := (bind c (fun p => k))
  (at level 61, p pattern, c at next level, right associativity) : py_scope.
Local Open Scope py_scope.

(** [for i in range(n): st = body(i, st)], stopping at the first exception. *)
Fixpoint for_each {S : Type} (idx : list nat) (body : nat -> S -> result S)
  (st : S) : result S :=
  match idx with
  | [] => Ok st
  | i :: rest => st' <- body i st ;; for_each rest body st'
  end.

Definition for_range {S : Type} (n : nat) (body : nat -> S -> result S)
  (st : S) : result S :=
  for_each (seq 0 n) body st.

(** ** Bytes and strings *)

Definition bytes := list byte.
Definition str := list N.

Definition byte_of_N (n : N) : byte :=
  match Byte.of_N (n mod 256) with
  | Some b => b
  | None => x00
  end.

Definition byte_of_Z (z : Z) : byte := byte_of_N (Z.to_N (z mod 256)).
Definition Z_of_byte (b : byte) : Z := Z.of_N (Byte.to_N b).

(** An ASCII literal of the source as a [str]. *)
Definition lit (s : string) : str := map N_of_ascii (String.list_ascii_of_string s).

(** [seq[a:b]] for [0 <= a] and [0 <= b]. *)
Definition slice {A : Type} (l : list A) (a b : nat) : list A :=
  firstn (b - a) (skipn a l).

(** [math.ceil(a / b)] for lengths: the quotient of two lengths is computed in
    double precision, which is exact (and so is its ceiling) far beyond the
    size of any byte string that fits in memory. *)
Definition ceil_div (a b : nat) : nat :=
  if a mod b =? 0 then a / b else S (a / b).

(** ** base64 (the [base64] and [binascii] modules) *)

Module Base64.

Definition alphabet : list byte :=
  String.list_byte_of_string
    "ABCDEFGHIJKLMNOPQRSTUVWXYZabcdefghijklmnopqrstuvwxyz0123456789+/"%string.

Definition pad_char : byte := "="%byte.

(** The character of a 6-bit value. *)
Definition char_of (v : N) : byte := nth (N.to_nat (v mod 64)) alphabet x00.

(** [binascii.b2a_base64(data, newline=False)]. *)
Fixpoint b64encode (data : bytes) : bytes :=
  match data with
  | [] => []
  | [a] =>
      let n := (Byte.to_N a * 65536)%N in
      [char_of (n / 262144); char_of (n / 4096); pad_char; pad_char]
  | [a; b] =>
      let n := (Byte.to_N a * 65536 + Byte.to_N b * 256)%N in
      [char_of (n / 262144); char_of (n / 4096); char_of (n / 64); pad_char]
  | a :: b :: c :: rest =>
      let n := (Byte.to_N a * 65536 + Byte.to_N b * 256 + Byte.to_N c)%N in
      char_of (n / 262144) :: char_of (n / 4096) :: char_of (n / 64)
        :: char_of n :: b64encode rest
  end.

(** The 6-bit value of a character of the alphabet ([table_a2b_base64]). *)
Definition value_of (c : byte) : option N :=
  let n := Byte.to_N c in
  if ((65 <=? n) && (n <=? 90))%N then Some (n - 65)%N
  else if ((97 <=? n) && (n <=? 122))%N then Some (n - 71)%N
  else if ((48 <=? n) && (n <=? 57))%N then Some (n + 4)%N
  else if (n =? 43)%N then Some 62%N
  else if (n =? 47)%N then Some 63%N
  else None.

(** [binascii.a2b_base64] in its default, non-strict mode: characters outside
    the alphabet are skipped, a pad sequence that completes a quad ends the
    decoding, and an incomplete quad at the end of the input is an error. *)
Fixpoint a2b_loop (input : bytes) (quad_pos leftchar pads : N) (out : bytes)
  : result bytes :=
  match input with
  | [] => if (quad_pos =? 0)%N then Ok out else Raise BinasciiError
  | c :: rest =>
      if Byte.eqb c pad_char then
        if ((2 <=? quad_pos) && (4 <=? quad_pos + (pads + 1)))%N then Ok out
        else a2b_loop rest quad_pos leftchar
               (if (2 <=? quad_pos)%N then pads + 1 else pads)%N out
      else
        match value_of c with
        | None => a2b_loop rest quad_pos leftchar pads out
        | Some d =>
            if (quad_pos =? 0)%N then a2b_loop rest 1 d 0 out
            else if (quad_pos =? 1)%N then
              a2b_loop rest 2 (d mod 16) 0
                (out ++ [byte_of_N (leftchar * 4 + d / 16)])
            else if (quad_pos =? 2)%N then
              a2b_loop rest 3 (d mod 4) 0
                (out ++ [byte_of_N (leftchar * 16 + d / 4)])
            else
              a2b_loop rest 0 0 0 (out ++ [byte_of_N (leftchar * 64 + d)])
        end
  end.

(** [str.encode("ascii")], as [base64.b64decode] applies it to a [str]
    argument. *)
Fixpoint ascii_bytes (s : str) : result bytes :=
  match s with
  | [] => Ok []
  | c :: rest =>
      if (c <? 128)%N then
        r <- ascii_bytes rest ;; Ok (byte_of_N c :: r)
      else Raise ValueError
  end.

(** [base64.b64decode(s)] for a [str] argument. *)
Definition b64decode (s : str) : result bytes :=
  raw <- ascii_bytes s ;; a2b_loop raw 0 0 0 [].

(** [bytes.decode("ascii")]. *)
Fixpoint decode_ascii (b : bytes) : result str :=
  match b with
  | [] => Ok []
  | c :: rest =>
      if (Byte.to_N c <? 128)%N then
        r <- decode_ascii rest ;; Ok (Byte.to_N c :: r)
      else Raise UnicodeDecodeError
  end.

End Base64.

(** ** RSA with PKCS #1 v1.5 encryption padding (the [cryptography] package) *)

Module RSA.

Record public_key : Set := { modulus : Z; exponent : Z }.

(** Octet string to integer and back, big endian (OS2IP and I2OSP). *)
Definition os2ip (b : bytes) : Z :=
  fold_left (fun acc x => (acc * 256 + Z_of_byte x)%Z) b 0%Z.

Fixpoint i2osp (k : nat) (z : Z) : bytes :=
  match k with
  | O => []
  | S k' => i2osp k' (z / 256) ++ [byte_of_Z z]
  end.

(** Modular exponentiation by squaring. *)
Fixpoint modexp_pos (b : Z) (e : positive) (n : Z) : Z :=
  match e with
  | xH => (b mod n)%Z
  | xO e' => let r := modexp_pos b e' n in (r * r mod n)%Z
  | xI e' => let r := modexp_pos b e' n in ((r * r mod n) * b mod n)%Z
  end.

Definition modexp (b e n : Z) : Z :=
  match e with
  | Zpos p => modexp_pos b p n
  | Z0 => (1 mod n)%Z
  | Zneg _ => 0%Z
  end.

(** The length in octets of the modulus ([key_size // 8] rounded up). *)
Definition key_bytes (key : public_key) : nat :=
  Z.to_nat ((Z.log2 (modulus key) + 8) / 8).

(** *** DER: SubjectPublicKeyInfo carrying an rsaEncryption key *)

Definition der_length (d : bytes) : option (nat * bytes) :=
  match d with
  | [] => None
  | b :: rest =>
      let n := Byte.to_N b in
      if (n <? 128)%N then Some (N.to_nat n, rest)
      else if (n =? 129)%N then
        match rest with
        | l1 :: rest' => Some (N.to_nat (Byte.to_N l1), rest')
        | _ => None
        end
      else if (n =? 130)%N then
        match rest with
        | l1 :: l2 :: rest' =>
            Some (N.to_nat (Byte.to_N l1 * 256 + Byte.to_N l2), rest')
        | _ => None
        end
      else None
  end.

(** One tag-length-value element with the expected tag: its content and what
    follows it. *)
Definition der_tlv (tag : byte) (d : bytes) : option (bytes * bytes) :=
  match d with
  | [] => None
  | t :: rest =>
      if Byte.eqb t tag then
        match der_length rest with
        | Some (len, body) =>
            if len <=? length body
            then Some (firstn len body, skipn len body)
            else None
        | None => None
        end
      else None
  end.

Definition is_nil {A : Type} (l : list A) : bool :=
  match l with [] => true | _ => false end.

Definition bytes_eqb (a b : bytes) : bool :=
  if list_eq_dec Byte.byte_eq_dec a b then true else false.

(** 1.2.840.113549.1.1.1 *)
Definition oid_rsaEncryption : bytes :=
  [x2a; x86; x48; x86; xf7; x0d; x01; x01; x01].

Definition obind {A B : Type} (o : option A) (k : A -> option B) : option B :=
  match o with Some a => k a | None => None end.

Definition parse_spki (der : bytes) : option public_key :=
  obind (der_tlv x30 der) (fun '(spki, r0) =>
  obind (der_tlv x30 spki) (fun '(alg, r1) =>
  obind (der_tlv x06 alg) (fun '(oid, r2) =>
  obind (der_tlv x05 r2) (fun '(null, r3) =>
  obind (der_tlv x03 r1) (fun '(bits, r4) =>
  match bits with
  | unused :: body =>
      obind (der_tlv x30 body) (fun '(rsakey, r5) =>
      obind (der_tlv x02 rsakey) (fun '(nb, r6) =>
      obind (der_tlv x02 r6) (fun '(eb, r7) =>
      if is_nil r0 && is_nil r3 && is_nil r4 && is_nil r5 && is_nil r7
         && is_nil null && bytes_eqb oid oid_rsaEncryption
         && Byte.eqb unused x00
      then Some {| modulus := os2ip nb; exponent := os2ip eb |}
      else None)))
  | [] => None
  end))))).

(** [load_der_public_key(der)]. *)
Definition load_der_public_key (der : bytes) : result public_key :=
  match parse_spki der with
  | Some k => Ok k
  | None => Raise ValueError
  end.

(** *** Encryption *)

(** The source of the padding octets.  PKCS #1 v1.5 fills the padding string
    with pseudo-random nonzero octets; the model reads them off a tape, at a
    cursor that advances with every octet drawn, and folds each draw into
    1..255. *)
Definition entropy := nat -> byte.

Definition nonzero_octet (b : byte) : byte :=
  byte_of_N (1 + Byte.to_N b mod 255).

Definition draw_padding (rnd : entropy) (cur len : nat) : bytes :=
  map (fun i => nonzero_octet (rnd i)) (seq cur len).

(** EME-PKCS1-v1_5 encoding: [00 02 PS 00 M]. *)
Definition eme_encode (ps m : bytes) : bytes := x00 :: x02 :: ps ++ x00 :: m.

(** [pub_key.encrypt(block, padding.PKCS1v15())]: the ciphertext and the
    cursor of the entropy tape after the call. *)
Definition encrypt (key : public_key) (rnd : entropy) (cur : nat)
  (m : bytes) : result (bytes * nat) :=
  let k := key_bytes key in
  if k - 11 <? length m then Raise ValueError
  else
    let pslen := k - 3 - length m in
    let em := eme_encode (draw_padding rnd cur pslen) m in
    let mrep := os2ip em in
    if (modulus key <=? mrep)%Z then Raise ValueError
    else Ok (i2osp k (modexp mrep (exponent key) (modulus key)), cur + pslen).

End RSA.

(** ** The client: constants and the block cipher codec *)

Definition RSA_PUBLIC_KEY_B64 : str :=
  lit "MIGfMA0GCSqGSIb3DQEBAQUAA4GNADCBiQKBgQC4LF40GZ72SdhMyl765K/i4nY5"
  ++ lit "CPcHz2Q1IKWKZ9S79xmK7G8pUhbVf4EZLvnNF1+9IvOFQUKV5Z7ZNNviqSpnql9"
  ++ lit "tAT+8+J/He0R7pcirvVSxgdr2i9V/C/gmqAEZ5qVTzRnd3uWdFoKzPdEBxP0Ipor"
  ++ lit "J1VBbCv90yBSOhVxO+QIDAQAB".

Definition BASE_URL : str := lit "https://client-api.xbloom.com/".
Definition SKEY : str := lit "testskey".

Definition RSA_KEY_BYTES : nat := 128.
Definition RSA_MAX_PLAIN_BLOCK : nat := 117.

Definition _load_rsa_public_key : result RSA.public_key :=
  der <- Base64.b64decode RSA_PUBLIC_KEY_B64 ;;
  RSA.load_der_public_key der.

(** The state of the loop of [rsa_encrypt]: the [ciphertext] accumulated so
    far and the cursor of the entropy tape. *)
Definition rsa_encrypt_step (pub_key : RSA.public_key) (rnd : RSA.entropy)
  (plaintext : bytes) (i : nat) (st : bytes * nat) : result (bytes * nat) :=
  let '(ciphertext, cur) := st in
  let start := i * RSA_MAX_PLAIN_BLOCK in
  let end_ := Nat.min (start + RSA_MAX_PLAIN_BLOCK) (length plaintext) in
  let block := slice plaintext start end_ in
  '(encrypted, cur') <- RSA.encrypt pub_key rnd cur block ;;
  Ok (ciphertext ++ encrypted, cur').

Definition rsa_encrypt (rnd : RSA.entropy) (plaintext : bytes) : result bytes :=
  pub_key <- _load_rsa_public_key ;;
  let num_blocks := ceil_div (length plaintext) RSA_MAX_PLAIN_BLOCK in
  st <- for_range num_blocks (rsa_encrypt_step pub_key rnd plaintext) ([], 0) ;;
  Ok (fst st).

(** The key that [RSA_PUBLIC_KEY_B64] encodes. *)
Definition xbloom_public_key : RSA.public_key :=
  {| RSA.modulus :=
       129330898196524035537976942324074970833416744288030356569035620369000727856373472301717790583499447899781748023780674448973423414267743454985934371485412284452034369712392281716614261827955533793764788338518857650554157741130391666823649057760177259084437609842182030447909957380007514927906169303961664507641;
     RSA.exponent := 65537 |}.

(** ** Strings: the [str] methods the client uses *)

Definition str_eqb (a b : str) : bool :=
  if list_eq_dec N.eq_dec a b then true else false.

Fixpoint starts_with (p s : str) : bool :=
  match p, s with
  | [], _ => true
  | a :: p', b :: s' => (a =? b)%N && starts_with p' s'
  | _ :: _, [] => false
  end.

(** [sub in s]. *)
Fixpoint contains (sub s : str) : bool :=
  starts_with sub s
  || match s with
     | [] => false
     | _ :: r => contains sub r
     end.

(** [str.isspace] on one code point. *)
Definition is_space (c : N) : bool :=
  ((9 <=? c) && (c <=? 13) || (28 <=? c) && (c <=? 32) || (c =? 133)
   || (c =? 160) || (c =? 5760) || (8192 <=? c) && (c <=? 8202)
   || (c =? 8232) || (c =? 8233) || (c =? 8239) || (c =? 8287)
   || (c =? 12288))%N.

Fixpoint lstrip (s : str) : str :=
  match s with
  | c :: r => if is_space c then lstrip r else s
  | [] => []
  end.

(** [s.strip()]. *)
Definition strip (s : str) : str := rev (lstrip (rev (lstrip s))).

(** [s.split(sep)] for a nonempty separator: [skip] counts the characters of
    a separator just matched that are still to be passed over and [cur] is
    the piece being collected. *)
Fixpoint split_go (sep : str) (skip : nat) (s cur : str) : list str :=
  match s with
  | [] => [cur]
  | c :: r =>
      match skip with
      | S k => split_go sep k r cur
      | O =>
          if starts_with sep s
          then cur :: split_go sep (length sep - 1) r []
          else split_go sep 0 r (cur ++ [c])
      end
  end.

Definition split (sep s : str) : list str := split_go sep 0 s [].

(** The part of [s] before the first occurrence of the character [c], all of
    [s] when there is none. *)
Fixpoint take_until (c : N) (s : str) : str :=
  match s with
  | [] => []
  | x :: r => if (x =? c)%N then [] else x :: take_until c r
  end.

(** The mantissa of the text of a float: what precedes its exponent. *)
Fixpoint take_while_not_exp (s : str) : str :=
  match s with
  | [] => []
  | x :: r =>
      if ((x =? 101) || (x =? 69))%N then [] else x :: take_while_not_exp r
  end.

(** ** UTF-8 (the [utf-8] codec) *)

Module UTF8.

Definition encode_char (c : N) : result bytes :=
  if (c <? 128)%N then Ok [byte_of_N c]
  else if (c <? 2048)%N then
    Ok [byte_of_N (192 + c / 64); byte_of_N (128 + c mod 64)]
  else if (c <? 65536)%N then
    if ((55296 <=? c) && (c <=? 57343))%N then Raise UnicodeEncodeError
    else Ok [byte_of_N (224 + c / 4096); byte_of_N (128 + (c / 64) mod 64);
             byte_of_N (128 + c mod 64)]
  else if (c <? 1114112)%N then
    Ok [byte_of_N (240 + c / 262144); byte_of_N (128 + (c / 4096) mod 64);
        byte_of_N (128 + (c / 64) mod 64); byte_of_N (128 + c mod 64)]
  else Raise UnicodeEncodeError.

(** [s.encode("utf-8")]. *)
Fixpoint encode (s : str) : result bytes :=
  match s with
  | [] => Ok []
  | c :: r => b <- encode_char c ;; rest <- encode r ;; Ok (b ++ rest)
  end.

(** What the decoder finds at the head of its input: a character and the
    number of octets it takes, or a malformed sequence and the number of
    octets the error covers. *)
Inductive step : Set :=
| Char (c : N) (n : nat)
| Bad (n : nat).

Definition is_cont (b : N) : bool := ((128 <=? b) && (b <? 192))%N.

Definition decode_step (s : bytes) : step :=
  match map Byte.to_N s with
  | [] => Bad 0
  | b :: r =>
      if (b <? 128)%N then Char b 1
      else if (b <? 194)%N then Bad 1
      else if (b <? 224)%N then
        match r with
        | [] => Bad 1
        | c2 :: _ =>
            if is_cont c2 then Char ((b - 192) * 64 + (c2 - 128)) 2
            else Bad 1
        end
      else if (b <? 240)%N then
        match r with
        | [] => Bad 1
        | c2 :: r2 =>
            if negb (is_cont c2)
               || (if (c2 <? 160)%N then (b =? 224)%N else (b =? 237)%N)
            then Bad 1
            else
              match r2 with
              | [] => Bad 2
              | c3 :: _ =>
                  if is_cont c3
                  then Char ((b - 224) * 4096 + (c2 - 128) * 64 + (c3 - 128)) 3
                  else Bad 2
              end
        end
      else if (b <? 245)%N then
        match r with
        | [] => Bad 1
        | c2 :: r2 =>
            if negb (is_cont c2)
               || (if (c2 <? 144)%N then (b =? 240)%N else (b =? 244)%N)
            then Bad 1
            else
              match r2 with
              | [] => Bad 2
              | c3 :: r3 =>
                  if negb (is_cont c3) then Bad 2
                  else
                    match r3 with
                    | [] => Bad 3
                    | c4 :: _ =>
                        if is_cont c4
                        then Char ((b - 240) * 262144 + (c2 - 128) * 4096
                                   + (c3 - 128) * 64 + (c4 - 128)) 4
                        else Bad 3
                    end
              end
        end
      else Bad 1
  end.

(** [b.decode("utf-8", errors)] with [errors] either ["strict"] or
    ["replace"]; [skip] counts the octets of the current sequence still to be
    passed over. *)
Fixpoint decode_go (replace : bool) (skip : nat) (s : bytes) : result str :=
  match s with
  | [] => Ok []
  | _ :: r =>
      match skip with
      | S k => decode_go replace k r
      | O =>
          match decode_step s with
          | Char c n => rest <- decode_go replace (n - 1) r ;; Ok (c :: rest)
          | Bad n =>
              if replace
              then rest <- decode_go replace (n - 1) r ;; Ok (65533%N :: rest)
              else Raise UnicodeDecodeError
          end
      end
  end.

Definition decode (s : bytes) : result str := decode_go false 0 s.

Definition decode_replace (s : bytes) : str :=
  match decode_go true 0 s with
  | Ok t => t
  | Raise _ => []
  end.

End UTF8.

(** ** [urllib.parse.unquote] *)

Definition hex_value (c : N) : option N :=
  if ((48 <=? c) && (c <=? 57))%N then Some (c - 48)%N
  else if ((65 <=? c) && (c <=? 70))%N then Some (c - 55)%N
  else if ((97 <=? c) && (c <=? 102))%N then Some (c - 87)%N
  else None.

(** [unquote_to_bytes] on a run of ASCII characters: [%XX] with two
    hexadecimal digits becomes the octet, any other [%] stays. *)
Fixpoint unquote_to_bytes_go (skip : nat) (s : str) : bytes :=
  match s with
  | [] => []
  | c :: r =>
      match skip with
      | S k => unquote_to_bytes_go k r
      | O =>
          if (c =? 37)%N then
            match r with
            | h1 :: h2 :: _ =>
                match hex_value h1, hex_value h2 with
                | Some a, Some b =>
                    byte_of_N (a * 16 + b) :: unquote_to_bytes_go 2 r
                | _, _ => byte_of_N c :: unquote_to_bytes_go 0 r
                end
            | _ => byte_of_N c :: unquote_to_bytes_go 0 r
            end
          else byte_of_N c :: unquote_to_bytes_go 0 r
      end
  end.

Definition unquote_run (run : str) : str :=
  UTF8.decode_replace (unquote_to_bytes_go 0 run).

(** The runs of ASCII characters are unquoted and decoded, the characters
    between them are kept. *)
Fixpoint unquote_go (s run : str) : str :=
  match s with
  | [] => unquote_run run
  | c :: r =>
      if (c <? 128)%N then unquote_go r (run ++ [c])
      else unquote_run run ++ c :: unquote_go r []
  end.

(** [unquote(s)], with the defaults [encoding="utf-8", errors="replace"]. *)
Definition unquote (s : str) : str :=
  if existsb (N.eqb 37) s then unquote_go s [] else s.

(** ** Public API: the share identifier *)

Definition parse_share_id (share_url_or_id : str) : str :=
  let s := strip share_url_or_id in
  let s :=
    if contains (lit "id=") s
    then hd [] (split (lit "&") (last (split (lit "id=") s) []))
    else s in
  unquote s.

(** ** JSON values and the [json] module *)

Set Warnings "-register-all".

(** The Python objects that [json.loads] produces and [json.dumps] accepts.
    A [float] is carried as the text of its [repr]: [float.__repr__] is
    one-to-one on floats and [float(repr(x))] gives [x] back, so the text
    stands for the number; decoding keeps the text of a literal as it is
    read.  A [dict] is the list of its items in insertion order. *)
Inductive json : Type :=
| JNull
| JBool (b : bool)
| JInt (z : Z)
| JFloat (r : str)
| JStr (s : str)
| JList (l : list json)
| JDict (d : list (str * json)).

(** *** Dictionaries *)

Fixpoint dict_get (d : list (str * json)) (k : str) : option json :=
  match d with
  | [] => None
  | (k', v) :: r => if str_eqb k' k then Some v else dict_get r k
  end.

(** [d[k] = v]: an existing key keeps its place. *)
Fixpoint dict_set (d : list (str * json)) (k : str) (v : json)
  : list (str * json) :=
  match d with
  | [] => [(k, v)]
  | (k', v') :: r =>
      if str_eqb k' k then (k', v) :: r else (k', v') :: dict_set r k v
  end.

(** [d.update(items)] and [dict(items)]. *)
Definition dict_update (d items : list (str * json)) : list (str * json) :=
  fold_left (fun acc kv => dict_set acc (fst kv) (snd kv)) items d.

Definition dict_of_items (items : list (str * json)) : list (str * json) :=
  dict_update [] items.

(** *** Encoding *)

Module Json.

Definition digit_char (d : N) : N := (48 + d)%N.

Fixpoint uint_chars (u : Decimal.uint) : str :=
  match u with
  | Decimal.Nil => []
  | Decimal.D0 u' => 48%N :: uint_chars u'
  | Decimal.D1 u' => 49%N :: uint_chars u'
  | Decimal.D2 u' => 50%N :: uint_chars u'
  | Decimal.D3 u' => 51%N :: uint_chars u'
  | Decimal.D4 u' => 52%N :: uint_chars u'
  | Decimal.D5 u' => 53%N :: uint_chars u'
  | Decimal.D6 u' => 54%N :: uint_chars u'
  | Decimal.D7 u' => 55%N :: uint_chars u'
  | Decimal.D8 u' => 56%N :: uint_chars u'
  | Decimal.D9 u' => 57%N :: uint_chars u'
  end.

(** [int.__repr__]. *)
Definition int_repr (z : Z) : str :=
  match Z.to_int z with
  | Decimal.Pos u => uint_chars u
  | Decimal.Neg u => 45%N :: uint_chars u
  end.

(** The text of a float in JSON ([floatstr] of the encoder). *)
Definition float_text (r : str) : str :=
  if str_eqb r (lit "nan") then lit "NaN"
  else if str_eqb r (lit "inf") then lit "Infinity"
  else if str_eqb r (lit "-inf") then lit "-Infinity"
  else r.

Definition hex_digit (d : N) : N :=
  if (d <? 10)%N then (48 + d)%N else (87 + d)%N.

(** ['\\u{0:04x}'.format(n)]. *)
Definition u_escape (n : N) : str :=
  [92; 117; hex_digit ((n / 4096) mod 16); hex_digit ((n / 256) mod 16);
   hex_digit ((n / 16) mod 16); hex_digit (n mod 16)]%N.

(** The replacement of one character in a string literal ([ESCAPE_DCT] and
    the fall-back of [encode_basestring] and [encode_basestring_ascii]). *)
Definition escape_char (ensure_ascii : bool) (c : N) : str :=
  if (c =? 34)%N then [92; 34]%N
  else if (c =? 92)%N then [92; 92]%N
  else if (c =? 10)%N then [92; 110]%N
  else if (c =? 13)%N then [92; 114]%N
  else if (c =? 9)%N then [92; 116]%N
  else if (c =? 8)%N then [92; 98]%N
  else if (c =? 12)%N then [92; 102]%N
  else if (c <? 32)%N then u_escape c
  else if ensure_ascii && (126 <? c)%N then
    if (c <? 65536)%N then u_escape c
    else
      let n := (c - 65536)%N in
      u_escape (55296 + (n / 1024) mod 1024)
      ++ u_escape (56320 + n mod 1024)
  else [c].

Definition encode_string (ensure_ascii : bool) (s : str) : str :=
  34%N :: flat_map (escape_char ensure_ascii) s ++ [34%N].

Fixpoint join (sep : str) (parts : list str) : str :=
  match parts with
  | [] => []
  | [p] => p
  | p :: rest => p ++ sep ++ join sep rest
  end.

(** [json.dumps(obj, ensure_ascii=..., separators=(item_sep, key_sep))]. *)
Fixpoint dumps (ensure_ascii : bool) (item_sep key_sep : str) (v : json)
  : str :=
  match v with
  | JNull => lit "null"
  | JBool true => lit "true"
  | JBool false => lit "false"
  | JInt z => int_repr z
  | JFloat r => float_text r
  | JStr s => encode_string ensure_ascii s
  | JList l =>
      91%N :: join item_sep (map (dumps ensure_ascii item_sep key_sep) l)
        ++ [93%N]
  | JDict d =>
      123%N
        :: join item_sep
             (map (fun kv =>
                     encode_string ensure_ascii (fst kv) ++ key_sep
                     ++ dumps ensure_ascii item_sep key_sep (snd kv)) d)
        ++ [125%N]
  end.

(** *** Decoding *)

Definition is_ws (c : N) : bool :=
  ((c =? 32) || (c =? 9) || (c =? 10) || (c =? 13))%N.

Fixpoint skip_ws (s : str) : str :=
  match s with
  | c :: r => if is_ws c then skip_ws r else s
  | [] => []
  end.

Definition is_digit (c : N) : bool := ((48 <=? c) && (c <=? 57))%N.

Fixpoint span_digits (s : str) : str * str :=
  match s with
  | c :: r =>
      if is_digit c
      then let (d, rest) := span_digits r in (c :: d, rest)
      else ([], s)
  | [] => ([], [])
  end.

Fixpoint uint_of_chars (s : str) : Decimal.uint :=
  match s with
  | [] => Decimal.Nil
  | c :: r =>
      let u := uint_of_chars r in
      if (c =? 48)%N then Decimal.D0 u
      else if (c =? 49)%N then Decimal.D1 u
      else if (c =? 50)%N then Decimal.D2 u
      else if (c =? 51)%N then Decimal.D3 u
      else if (c =? 52)%N then Decimal.D4 u
      else if (c =? 53)%N then Decimal.D5 u
      else if (c =? 54)%N then Decimal.D6 u
      else if (c =? 55)%N then Decimal.D7 u
      else if (c =? 56)%N then Decimal.D8 u
      else Decimal.D9 u
  end.

(** [int(text)] for the text of a JSON integer. *)
Definition int_of_text (neg : bool) (digits : str) : Z :=
  let u := uint_of_chars digits in
  Z.of_int (if neg then Decimal.Neg u else Decimal.Pos u).

(** The fraction [\.\d+] at the head of [s], if there is one. *)
Definition scan_frac (s : str) : str * str :=
  match s with
  | 46%N :: r =>
      match span_digits r with
      | ([], _) => ([], s)
      | (d, rest) => (46%N :: d, rest)
      end
  | _ => ([], s)
  end.

(** The exponent [[eE][-+]?\d+] at the head of [s], if there is one. *)
Definition scan_exp (s : str) : str * str :=
  match s with
  | e :: r =>
      if ((e =? 101) || (e =? 69))%N then
        let (sign, r') :=
          match r with
          | c :: r0 => if ((c =? 43) || (c =? 45))%N then ([c], r0) else ([], r)
          | [] => ([], r)
          end in
        match span_digits r' with
        | ([], _) => ([], s)
        | (d, rest) => (e :: sign ++ d, rest)
        end
      else ([], s)
  | [] => ([], s)
  end.

(** [NUMBER_RE] at the head of [s]: an integer, or a float when a fraction
    or an exponent follows the integer part. *)
Definition scan_number (s : str) : option (json * str) :=
  let (neg, s1) :=
    match s with
    | 45%N :: r => (true, r)
    | _ => (false, s)
    end in
  match s1 with
  | c :: r =>
      if is_digit c then
        let (ds, rest) := if (c =? 48)%N then ([], r) else span_digits r in
        let int_part := c :: ds in
        let (frac, rest1) := scan_frac rest in
        let (ex, rest2) := scan_exp rest1 in
        match frac, ex with
        | [], [] => Some (JInt (int_of_text neg int_part), rest2)
        | _, _ =>
            Some (JFloat ((if neg then [45%N] else []) ++ int_part ++ frac
                          ++ ex), rest2)
        end
      else None
  | [] => None
  end.

Definition hex4 (s : str) : option (N * str) :=
  match s with
  | a :: b :: c :: d :: r =>
      match hex_value a, hex_value b, hex_value c, hex_value d with
      | Some x, Some y, Some z, Some w =>
          Some (x * 4096 + y * 256 + z * 16 + w, r)%N
      | _, _, _, _ => None
      end
  | _ => None
  end.

(** The character a one-letter escape stands for ([BACKSLASH]). *)
Definition unescape (e : N) : option N :=
  if (e =? 34)%N then Some 34%N
  else if (e =? 92)%N then Some 92%N
  else if (e =? 47)%N then Some 47%N
  else if (e =? 98)%N then Some 8%N
  else if (e =? 102)%N then Some 12%N
  else if (e =? 110)%N then Some 10%N
  else if (e =? 114)%N then Some 13%N
  else if (e =? 116)%N then Some 9%N
  else None.

(** A [\uXXXX] escape of a low surrogate at the head of [s]. *)
Definition low_escape (s : str) : option (N * str) :=
  match s with
  | 92%N :: 117%N :: r =>
      match hex4 r with
      | Some (u, r') =>
          if ((56320 <=? u) && (u <=? 57343))%N then Some (u, r') else None
      | None => None
      end
  | _ => None
  end.

(** [scanstring], in strict mode, from just after the opening quote: the
    string and what follows its closing quote. *)
Fixpoint scanstring (fuel : nat) (s : str) : result (str * str) :=
  match fuel with
  | O => Raise JSONDecodeError
  | S f =>
      match s with
      | [] => Raise JSONDecodeError
      | c :: r =>
          if (c =? 34)%N then Ok ([], r)
          else if (c =? 92)%N then
            match r with
            | [] => Raise JSONDecodeError
            | e :: r1 =>
                if (e =? 117)%N then
                  match hex4 r1 with
                  | None => Raise JSONDecodeError
                  | Some (u, r2) =>
                      match
                        (if ((55296 <=? u) && (u <=? 56319))%N
                         then low_escape r2 else None)
                      with
                      | Some (u2, r3) =>
                          '(t, rest) <- scanstring f r3 ;;
                          Ok ((65536 + (u - 55296) * 1024 + (u2 - 56320))%N
                                :: t, rest)
                      | None =>
                          '(t, rest) <- scanstring f r2 ;; Ok (u :: t, rest)
                      end
                  end
                else
                  match unescape e with
                  | Some ch =>
                      '(t, rest) <- scanstring f r1 ;; Ok (ch :: t, rest)
                  | None => Raise JSONDecodeError
                  end
            end
          else if (c <? 32)%N then Raise JSONDecodeError
          else '(t, rest) <- scanstring f r ;; Ok (c :: t, rest)
      end
  end.

(** The items of an array after its first bracket ([JSONArray]); [scan]
    decodes one value. *)
Fixpoint array_items (scan : str -> result (json * str)) (fuel : nat)
  (s : str) : result (list json * str) :=
  match fuel with
  | O => Raise JSONDecodeError
  | S f =>
      '(v, r) <- scan s ;;
      match skip_ws r with
      | 93%N :: r' => Ok ([v], r')
      | 44%N :: r' =>
          '(vs, r'') <- array_items scan f (skip_ws r') ;; Ok (v :: vs, r'')
      | _ => Raise JSONDecodeError
      end
  end.

(** The items of an object from just after the opening quote of a key
    ([JSONObject]). *)
Fixpoint object_items (scan : str -> result (json * str)) (fuel : nat)
  (s : str) : result (list (str * json) * str) :=
  match fuel with
  | O => Raise JSONDecodeError
  | S f =>
      '(k, r) <- scanstring (length s) s ;;
      match skip_ws r with
      | 58%N :: r1 =>
          '(v, r2) <- scan (skip_ws r1) ;;
          match skip_ws r2 with
          | 125%N :: r3 => Ok ([(k, v)], r3)
          | 44%N :: r3 =>
              match skip_ws r3 with
              | 34%N :: r4 =>
                  '(kvs, r5) <- object_items scan f r4 ;;
                  Ok ((k, v) :: kvs, r5)
              | _ => Raise JSONDecodeError
              end
          | _ => Raise JSONDecodeError
          end
      | _ => Raise JSONDecodeError
      end
  end.

(** [scan_once]: one value at the head of [s].  The fuel bounds the depth of
    nesting and the number of items; [loads] hands over more than the input
    can use up. *)
Fixpoint scan_once (fuel : nat) (s : str) : result (json * str) :=
  match fuel with
  | O => Raise JSONDecodeError
  | S f =>
      match s with
      | [] => Raise JSONDecodeError
      | c :: r =>
          if (c =? 34)%N then
            '(t, rest) <- scanstring (length r) r ;; Ok (JStr t, rest)
          else if (c =? 123)%N then
            match skip_ws r with
            | 125%N :: r' => Ok (JDict [], r')
            | 34%N :: r' =>
                '(kvs, rest) <- object_items (scan_once f) f r' ;;
                Ok (JDict (dict_of_items kvs), rest)
            | _ => Raise JSONDecodeError
            end
          else if (c =? 91)%N then
            match skip_ws r with
            | 93%N :: r' => Ok (JList [], r')
            | r' =>
                '(vs, rest) <- array_items (scan_once f) f r' ;;
                Ok (JList vs, rest)
            end
          else if starts_with (lit "null") s then Ok (JNull, skipn 4 s)
          else if starts_with (lit "true") s then Ok (JBool true, skipn 4 s)
          else if starts_with (lit "false") s then Ok (JBool false, skipn 5 s)
          else
            match scan_number s with
            | Some res => Ok res
            | None =>
                if starts_with (lit "NaN") s
                then Ok (JFloat (lit "nan"), skipn 3 s)
                else if starts_with (lit "Infinity") s
                then Ok (JFloat (lit "inf"), skipn 8 s)
                else if starts_with (lit "-Infinity") s
                then Ok (JFloat (lit "-inf"), skipn 9 s)
                else Raise JSONDecodeError
            end
      end
  end.

(** [json.loads(s)] for a [str]. *)
Definition loads (s : str) : result json :=
  '(v, rest) <- scan_once (S (length s)) (skip_ws s) ;;
  match skip_ws rest with
  | [] => Ok v
  | _ :: _ => Raise JSONDecodeError
  end.

End Json.

(** ** Python values: truth, [.get], [int] *)

(** Whether the float whose text is [r] is zero: its digits before the
    exponent are all zero. *)
Definition float_is_zero (r : str) : bool :=
  let mant := filter Json.is_digit (take_while_not_exp r) in
  negb (RSA.is_nil mant) && forallb (N.eqb 48) mant.

(** [bool(v)]. *)
Definition truthy (v : json) : bool :=
  match v with
  | JNull => false
  | JBool b => b
  | JInt z => negb (z =? 0)%Z
  | JFloat r => negb (float_is_zero r)
  | JStr s => negb (RSA.is_nil s)
  | JList l => negb (RSA.is_nil l)
  | JDict d => negb (RSA.is_nil d)
  end.

(** [o.get(k, default)]: only a [dict] has the method. *)
Definition py_get (o : json) (k : str) (default : json) : result json :=
  match o with
  | JDict d =>
      match dict_get d k with
      | Some v => Ok v
      | None => Ok default
      end
  | _ => Raise AttributeError
  end.

(** [v == s] for a string [s]. *)
Definition eq_str (v : json) (s : str) : bool :=
  match v with
  | JStr t => str_eqb t s
  | _ => false
  end.

(** The conversions of [int()] that depend on the text of a string or on the
    binary value of a float are left to the interpreter. *)
Record builtins : Type := {
  int_of_str : str -> result Z;
  int_of_float : str -> result Z
}.

(** [int(v)]. *)
Definition py_int (B : builtins) (v : json) : result Z :=
  match v with
  | JInt z => Ok z
  | JBool b => Ok (if b then 1 else 0)%Z
  | JStr s => int_of_str B s
  | JFloat r => int_of_float B r
  | JNull | JList _ | JDict _ => Raise TypeError
  end.

(** ** The credential file [~/.xbloom_auth] *)

(** What the client finds at [AUTH_FILE]: nothing, a file it cannot read, or
    a file with its content and permission bits. *)
Inductive auth_file : Type :=
| Missing
| Unreadable
| Present (content : bytes) (mode : N).

Definition exists_ (f : auth_file) : bool :=
  match f with
  | Missing => false
  | Unreadable | Present _ _ => true
  end.

(** Text mode reads ["\r\n"] and ["\r"] as ["\n"]. *)
Fixpoint universal_newlines (s : str) : str :=
  match s with
  | [] => []
  | c :: r =>
      if (c =? 13)%N then
        match r with
        | 10%N :: _ => universal_newlines r
        | _ => 10%N :: universal_newlines r
        end
      else c :: universal_newlines r
  end.

(** [AUTH_FILE.read_text(encoding="utf-8")]. *)
Definition read_text (f : auth_file) : result str :=
  match f with
  | Missing | Unreadable => Raise OSError
  | Present content _ =>
      t <- UTF8.decode content ;; Ok (universal_newlines t)
  end.

(** [AUTH_FILE.write_text(text, encoding="utf-8")] followed by
    [AUTH_FILE.chmod(mode)]. *)
Definition write_text_chmod (text : str) (mode : N) (f : auth_file)
  : result auth_file :=
  content <- UTF8.encode text ;; Ok (Present content mode).

Definition save_auth (member_id : Z) (token email : json) (f : auth_file)
  : result auth_file :=
  let data :=
    JDict [(lit "member_id", JInt member_id); (lit "token", token);
           (lit "email", email)] in
  write_text_chmod (Json.dumps true (lit ", ") (lit ": ") data) 384 f.

(** [load_auth()]: [None] is [JNull]. *)
Definition load_auth (f : auth_file) : result json :=
  if negb (exists_ f) then Ok JNull
  else
    match (text <- read_text f ;; Json.loads text) with
    | Ok v => Ok v
    | Raise JSONDecodeError | Raise OSError => Ok JNull
    | Raise e => Raise e
    end.

(** ** The request envelope *)

Definition _make_base_form (member_id : Z) (token : str) (f : auth_file)
  : result (list (str * json)) :=
  auth <- (if negb (truthy (JStr token)) then load_auth f else Ok JNull) ;;
  tok <- (if truthy (JStr token) then Ok (JStr token)
          else if truthy auth then py_get auth (lit "token") (JStr [])
          else Ok (JStr [])) ;;
  Ok [(lit "interfaceVersion", JInt 20240918);
      (lit "skey", JStr SKEY);
      (lit "phoneType", JStr (lit "Android"));
      (lit "memberId", JInt member_id);
      (lit "clientType", JInt 2);
      (lit "languageType", JInt 1);
      (lit "token", tok)].

(** ** The composite encoding and the transport *)

Definition encrypt_form (rnd : RSA.entropy) (form : json) : result str :=
  json_bytes <- UTF8.encode (Json.dumps false (lit ",") (lit ":") form) ;;
  encrypted <- rsa_encrypt rnd json_bytes ;;
  Base64.decode_ascii (Base64.b64encode encrypted).

(** The [data] of a request: octets, or an object handed over as it is. *)
Inductive payload : Type :=
| Octets (b : bytes)
| Object (o : json).

Record request : Type := {
  req_url : str;
  req_data : payload;
  req_method : str;
  req_headers : list (str * str);
  req_timeout : Z
}.

(** The remote end as [urlopen] shows it: the body of the response, or the
    failure of the exchange. *)
Definition server := request -> result bytes.

(** The request that [_post] hands to [urlopen] with [timeout=15]. *)
Definition _post_request (endpoint : str) (body : json) (is_encrypted : bool)
  : result request :=
  data <- (if is_encrypted then
             match body with
             | JStr s => b <- UTF8.encode s ;; Ok (Octets b)
             | _ => Ok (Object body)
             end
           else
             b <- UTF8.encode (Json.dumps false (lit ", ") (lit ": ") body) ;;
             Ok (Octets b)) ;;
  Ok {| req_url := BASE_URL ++ endpoint;
        req_data := data;
        req_method := lit "POST";
        req_headers :=
          [(lit "Content-Type", lit "application/json; charset=utf-8");
           (lit "Accept", lit "application/json, text/plain, */*")]
          ++ (if negb is_encrypted
              then [(lit "Referer", lit "https://share-h5.xbloom.com/")]
              else []);
        req_timeout := 15 |}.

Definition _post (net : server) (endpoint : str) (body : json)
  (is_encrypted : bool) : result json :=
  req <- _post_request endpoint body is_encrypted ;;
  raw <- net req ;;
  text <- UTF8.decode raw ;;
  Json.loads text.

Definition fetch_recipe (net : server) (share_url_or_id : str) : result json :=
  let table_id := parse_share_id share_url_or_id in
  let body :=
    JDict [(lit "tableIdOfRSA", JStr table_id);
           (lit "interfaceVersion", JInt 19700101);
           (lit "skey", JStr SKEY)] in
  _post net (lit "RecipeDetail.html") body false.

(** ** Login *)

Definition login_form (email password : str) : json :=
  JDict [(lit "interfaceVersion", JInt 20240918);
         (lit "skey", JStr SKEY);
         (lit "phoneType", JStr (lit "Android"));
         (lit "clientType", JInt 2);
         (lit "languageType", JInt 1);
         (lit "email", JStr email);
         (lit "password", JStr password);
         (lit "jpushId", JStr [])].

(** What [login] does with the response. *)
Definition login_finish (B : builtins) (email : str) (resp : json)
  (f : auth_file) : result (json * auth_file) :=
  res <- py_get resp (lit "result") JNull ;;
  if eq_str res (lit "success") then
    member <- py_get resp (lit "member") (JDict []) ;;
    table_id <- py_get member (lit "tableId") (JInt 0) ;;
    member_id <- py_int B table_id ;;
    token <- py_get resp (lit "token") (JStr []) ;;
    email' <- py_get member (lit "email") (JStr email) ;;
    f' <- save_auth member_id token email' f ;;
    Ok (resp, f')
  else Ok (resp, f).

(** [login(email, password)]: the response and the credential file after the
    call. *)
Definition login (B : builtins) (rnd : RSA.entropy) (net : server)
  (email password : str) (f : auth_file) : result (json * auth_file) :=
  encrypted_body <- encrypt_form rnd (login_form email password) ;;
  resp <- _post net (lit "tMemberLogin.thtml") (JStr encrypted_body) true ;;
  login_finish B email resp f.

(** ** Authenticated operations *)

(** The keyword arguments of [create_recipe]; a float argument is given by
    the text of its [repr]. *)
Record recipe_args : Type := {
  name : str;
  dose : str;
  grand_water : str;
  grinder_size : str;
  rpm : Z;
  cup_type : Z;
  adapted_model : Z;
  is_enable_bypass_water : Z;
  is_set_grinder_size : Z;
  the_color : str;
  the_subset_id : Z;
  bypass_temp : str;
  bypass_volume : str;
  pour_list : option (list json)
}.

Definition default_pour_list : list json :=
  [JDict [(lit "theName", JStr (lit "Pour"));
          (lit "volume", JFloat (lit "225.0"));
          (lit "temperature", JFloat (lit "93.0"));
          (lit "flowRate", JFloat (lit "3.5"));
          (lit "pattern", JInt 1);
          (lit "pausing", JInt 0);
          (lit "isEnableVibrationBefore", JInt 2);
          (lit "isEnableVibrationAfter", JInt 2)]].

(** The envelope of [create_recipe]; [now_ms] is [int(time.time() * 1000)]. *)
Definition create_recipe_form (member_id : Z) (a : recipe_args) (now_ms : Z)
  (f : auth_file) : result (list (str * json)) :=
  let pour_list :=
    match pour_list a with
    | None => default_pour_list
    | Some l => l
    end in
  form <- _make_base_form member_id [] f ;;
  Ok (dict_update form
        [(lit "theName", JStr (name a));
         (lit "dose", JFloat (dose a));
         (lit "grandWater", JFloat (grand_water a));
         (lit "grinderSize", JFloat (grinder_size a));
         (lit "rpm", JInt (rpm a));
         (lit "cupType", JInt (cup_type a));
         (lit "adaptedModel", JInt (adapted_model a));
         (lit "isEnableBypassWater", JInt (is_enable_bypass_water a));
         (lit "isSetGrinderSize", JInt (is_set_grinder_size a));
         (lit "theColor", JStr (the_color a));
         (lit "theSubsetId", JInt (the_subset_id a));
         (lit "bypassTemp", JFloat (bypass_temp a));
         (lit "bypassVolume", JFloat (bypass_volume a));
         (lit "subSetType", JInt 2);
         (lit "appPlace", JList [JInt 4]);
         (lit "createTimeStamp", JInt now_ms);
         (lit "isShortcuts", JInt 2);
         (lit "pourDataJSONStr",
          JStr (Json.dumps false (lit ",") (lit ":") (JList pour_list)))]).


(** The envelope of [list_my_recipes]. *)
Definition list_my_recipes_form (member_id adapted_model : Z) (f : auth_file)
  : result (list (str * json)) :=
  form <- _make_base_form member_id [] f ;;
  let form := dict_set form (lit "pageNumber") (JInt 1) in
  let form := dict_set form (lit "countPerPage") (JInt 100) in
  Ok (if truthy (JInt adapted_model)
      then dict_set form (lit "adaptedModel") (JInt adapted_model)
      else form).

Definition list_my_recipes (rnd : RSA.entropy) (net : server)
  (member_id adapted_model : Z) (f : auth_file) : result json :=
  form <- list_my_recipes_form member_id adapted_model f ;;
  encrypted_body <- encrypt_form rnd (JDict form) ;;
  _post net (lit "tuMyTeaRecipeCreated.tuhtml") (JStr encrypted_body) true.

(** ** The command line: the member id of the stored credentials *)

(** ** Auxiliary definitions of the proofs *)

(** Block [i] of the plaintext: the next 117 octets, or what is left. *)
Definition block_at (plaintext : bytes) (i : nat) : bytes :=
  firstn RSA_MAX_PLAIN_BLOCK (skipn (i * RSA_MAX_PLAIN_BLOCK) plaintext).

(** The number of padding octets the loop draws over the blocks [idx]. *)
Definition padding_drawn (plaintext : bytes) (idx : list nat) : nat :=
  list_sum (map (fun i => 125 - length (block_at plaintext i)) idx).

(** Two tapes that agree on the first 124 octets and differ afterwards. *)
Definition tape_a : RSA.entropy := fun i => if i <? 124 then x07 else x01.
Definition tape_b : RSA.entropy := fun i => if i <? 124 then x07 else x02.

(** The value of the header [name] of a request, if it is set. *)
Fixpoint header (hs : list (str * str)) (name : str) : option str :=
  match hs with
  | [] => None
  | (k, v) :: r => if str_eqb k name then Some v else header r name
  end.

(** The fields every envelope starts with, up to the token. *)
Definition base_fields (member_id : Z) (tok : json) : list (str * json) :=
  [(lit "interfaceVersion", JInt 20240918);
   (lit "skey", JStr (lit "testskey"));
   (lit "phoneType", JStr (lit "Android"));
   (lit "memberId", JInt member_id);
   (lit "clientType", JInt 2);
   (lit "languageType", JInt 1);
   (lit "token", tok)].


(** A literal of JSON text, written with ['] for its double quotes. *)
Definition jlit (s : string) : str :=
  map (fun c => if (c =? 39)%N then 34%N else c) (lit s).

(** A credential file holding the given text. *)
Definition file_of_text (text : string) : auth_file :=
  match UTF8.encode (jlit text) with
  | Ok b => Present b 384
  | Raise _ => Missing
  end.

Definition stored_record : auth_file :=
  file_of_text "{'member_id': 7, 'token': 'abc', 'email': 'a@b.c'}".

(** Conversions that always fail, for runs that never reach them. *)
Definition no_conversions : builtins :=
  {| int_of_str := fun _ => Raise ValueError;
     int_of_float := fun _ => Raise ValueError |}.

(** No blank in the strings of a value, nor in the text of its floats. *)
Fixpoint no_blank (v : json) : bool :=
  match v with
  | JNull | JBool _ | JInt _ => true
  | JFloat r => forallb (fun c => (33 <=? c)%N) (Json.float_text r)
  | JStr s => forallb (fun c => negb (c =? 32)%N) s
  | JList l => forallb no_blank l
  | JDict d =>
      forallb (fun kv => forallb (fun c => negb (c =? 32)%N) (fst kv)
                         && no_blank (snd kv)) d
  end.

(** The octets of the login form of [a@b.c] with password [pw]. *)
Definition sample_form : json := login_form (lit "a@b.c") (lit "pw").

Definition sample_form_bytes : bytes :=
  match UTF8.encode (Json.dumps false (lit ",") (lit ":") sample_form) with
  | Ok b => b
  | Raise _ => []
  end.

From Stdlib Require DecimalPos DecimalZ DecimalFacts.

(** A Unicode scalar value: a code point that is not a surrogate. *)
Definition scalar (c : N) : bool :=
  ((c <? 55296) || (57343 <? c) && (c <? 1114112))%N.

(** The text of a float as a JSON number with a fraction or an exponent, the
    form in which [repr] writes a finite float. *)
Definition float_literal (r : str) : bool :=
  match Json.scan_number r with
  | Some (JFloat r', []) => str_eqb r' r
  | _ => false
  end.

Definition float_repr (r : str) : bool :=
  str_eqb r (lit "nan") || str_eqb r (lit "inf") || str_eqb r (lit "-inf")
  || float_literal r.

(** No key occurs twice. *)
Fixpoint distinct_keys (d : list (str * json)) : bool :=
  match d with
  | [] => true
  | (k, _) :: r =>
      match dict_get r k with
      | None => distinct_keys r
      | Some _ => false
      end
  end.

(** The strings that survive [json.dumps] followed by [json.loads]: all of
    them when the text keeps the characters as they are, the sequences of
    scalar values when [ensure_ascii] writes escapes (the escape of a
    surrogate pair is read back as one character). *)
Definition plain_str (ensure_ascii : bool) (s : str) : bool :=
  negb ensure_ascii || forallb scalar s.

(** The values that [json.loads] can return: floats carry the text of a
    float, dictionaries have distinct keys. *)
Fixpoint plain (ensure_ascii : bool) (v : json) : bool :=
  match v with
  | JNull | JBool _ | JInt _ => true
  | JFloat r => float_repr r
  | JStr s => plain_str ensure_ascii s
  | JList l => forallb (plain ensure_ascii) l
  | JDict d =>
      forallb (fun kv => plain_str ensure_ascii (fst kv)
                         && plain ensure_ascii (snd kv)) d
      && distinct_keys d
  end.

(** What may follow a value in JSON text: nothing, a comma or a closing
    bracket. *)
Definition delimited (rest : str) : bool :=
  match rest with
  | [] => true
  | c :: _ => ((c =? 44) || (c =? 93) || (c =? 125))%N
  end.

(** The number that follows the sign in [scan_number]. *)
Definition scan_digits (neg : bool) (s1 : str) : option (json * str) :=
  match s1 with
  | c :: r =>
      if Json.is_digit c then
        let (ds, rest) := if (c =? 48)%N then ([], r) else Json.span_digits r in
        let int_part := c :: ds in
        let (frac, rest1) := Json.scan_frac rest in
        let (ex, rest2) := Json.scan_exp rest1 in
        match frac, ex with
        | [], [] => Some (JInt (Json.int_of_text neg int_part), rest2)
        | _, _ =>
            Some (JFloat ((if neg then [45%N] else []) ++ int_part ++ frac
                          ++ ex), rest2)
        end
      else None
  | [] => None
  end.

(** What a scanner of items does on the text of a value: it reads the value
    back and stops at the delimiter. *)
Definition reads (ensure_ascii : bool) (item_sep key_sep : str)
  (scan : str -> result (json * str)) (v : json) : Prop :=
  plain ensure_ascii v = true
  /\ forall rest,
       delimited rest = true ->
       scan (Json.dumps ensure_ascii item_sep key_sep v ++ rest) = Ok (v, rest).

(** A printable ASCII character. *)
Definition printable (c : N) : bool := ((32 <=? c) && (c <? 127))%N.

(** No float of the value is a NaN, which [json] writes as [NaN] and reads
    back as a NaN, a number that Python does not count as equal to itself. *)
Fixpoint no_nan (v : json) : bool :=
  match v with
  | JNull | JBool _ | JInt _ | JStr _ => true
  | JFloat r => negb (str_eqb r (lit "nan"))
  | JList l => forallb no_nan l
  | JDict d => forallb (fun kv => no_nan (snd kv)) d
  end.

(** The value of a key of a dictionary, or a default. *)
Definition field (d : list (str * json)) (k : str) (default : json) : json :=
  match dict_get d k with
  | Some v => v
  | None => default
  end.

(** The credential record that [save_auth] writes, and its text. *)
Definition credential_record (member_id : Z) (token email : json) : json :=
  JDict [(lit "member_id", JInt member_id); (lit "token", token);
         (lit "email", email)].

Definition credential_text (member_id : Z) (token email : json) : str :=
  Json.dumps true (lit ", ") (lit ": ") (credential_record member_id token email).

(** A server that answers every request with the given JSON text. *)
Definition answering (text : string) : server :=
  fun _ =>
    match UTF8.encode (jlit text) with
    | Ok b => Ok b
    | Raise e => Raise e
    end.

Definition unwrap {A : Type} (default : A) (r : result A) : A :=
  match r with
  | Ok a => a
  | Raise _ => default
  end.

(** The body of the login request of [a@b.c] on the tape [tape_a]. *)
Definition sample_body : str := unwrap [] (encrypt_form tape_a sample_form).

Definition sample_member : list (str * json) :=
  [(lit "tableId", JInt 42); (lit "email", JStr (lit "a@b.c"))].

Definition sample_success : list (str * json) :=
  [(lit "result", JStr (lit "success"));
   (lit "token", JStr (lit "tok"));
   (lit "member", JDict sample_member)].

(** The pour list that [create_recipe] serialises. *)
Definition effective_pour_list (a : recipe_args) : list json :=
  match pour_list a with
  | None => default_pour_list
  | Some l => l
  end.

(** The fields that [create_recipe] adds to the base envelope. *)
Definition recipe_fields (a : recipe_args) (now_ms : Z) : list (str * json) :=
  [(lit "theName", JStr (name a));
   (lit "dose", JFloat (dose a));
   (lit "grandWater", JFloat (grand_water a));
   (lit "grinderSize", JFloat (grinder_size a));
   (lit "rpm", JInt (rpm a));
   (lit "cupType", JInt (cup_type a));
   (lit "adaptedModel", JInt (adapted_model a));
   (lit "isEnableBypassWater", JInt (is_enable_bypass_water a));
   (lit "isSetGrinderSize", JInt (is_set_grinder_size a));
   (lit "theColor", JStr (the_color a));
   (lit "theSubsetId", JInt (the_subset_id a));
   (lit "bypassTemp", JFloat (bypass_temp a));
   (lit "bypassVolume", JFloat (bypass_volume a));
   (lit "subSetType", JInt 2);
   (lit "appPlace", JList [JInt 4]);
   (lit "createTimeStamp", JInt now_ms);
   (lit "isShortcuts", JInt 2);
   (lit "pourDataJSONStr",
    JStr (Json.dumps false (lit ",") (lit ":")
            (JList (effective_pour_list a))))].

(** The two pours of the template that [cmd_template] prints. *)
Definition template_pour_list : list json :=
  [JDict [(lit "theName", JStr (lit "Bloom"));
          (lit "volume", JFloat (lit "50.0"));
          (lit "temperature", JFloat (lit "93.0"));
          (lit "flowRate", JFloat (lit "3.0"));
          (lit "pattern", JInt 1);
          (lit "pausing", JInt 30);
          (lit "isEnableVibrationBefore", JInt 2);
          (lit "isEnableVibrationAfter", JInt 2)];
   JDict [(lit "theName", JStr (lit "Main Pour"));
          (lit "volume", JFloat (lit "175.0"));
          (lit "temperature", JFloat (lit "93.0"));
          (lit "flowRate", JFloat (lit "3.5"));
          (lit "pattern", JInt 2);
          (lit "pausing", JInt 0);
          (lit "isEnableVibrationBefore", JInt 2);
          (lit "isEnableVibrationAfter", JInt 2)]].

(** The keyword arguments of the template. *)
Definition template_args : recipe_args :=
  {| name := lit "My Recipe";
     dose := lit "15.0";
     grand_water := lit "15.0";
     grinder_size := lit "70.0";
     rpm := 120;
     cup_type := 1;
     adapted_model := 1;
     is_enable_bypass_water := 2;
     is_set_grinder_size := 1;
     the_color := lit "#C9D5B8";
     the_subset_id := 0;
     bypass_temp := lit "85.0";
     bypass_volume := lit "5.0";
     pour_list := Some template_pour_list |}.

(** What [json.loads] of the envelope text and then of its
    [pourDataJSONStr] string gives: the double decoding. *)
Definition decode_pour_data (envelope_text : str) : result json :=
  v <- Json.loads envelope_text ;;
  inner <- py_get v (lit "pourDataJSONStr") JNull ;;
  match inner with
  | JStr t => Json.loads t
  | _ => Raise TypeError
  end.

(** ** The command line: the authenticated commands up to their call *)



(** ** Time on the wire *)

(** [urlopen(req, timeout=t)] and [resp.read()] as the socket layer runs
    them: a sequence of blocking operations (the connection, the sending of
    the request, every receive of a piece of the response).  An operation
    of the peer is the number of seconds it lets the client wait and the
    octets of the body it delivers then.  The time-out is per operation: an
    operation that has not completed after [t] seconds raises
    [socket.timeout], an [OSError]; the operations before it have taken
    their time. *)
Definition operation : Type := (Z * bytes)%type.

Fixpoint run_operations (timeout : Z) (ops : list operation)
  : result bytes * Z :=
  match ops with
  | [] => (Ok [], 0%Z)
  | (wait, chunk) :: rest =>
      if (timeout <? wait)%Z then (Raise OSError, timeout)
      else
        let (r, t) := run_operations timeout rest in
        (rest_of_body <- r ;; Ok (chunk ++ rest_of_body), (wait + t)%Z)
  end.

Definition peer : Type := request -> list operation.

(** The server that a peer is to [urlopen], and the seconds that the call
    takes. *)
Definition serve (p : peer) : server :=
  fun req => fst (run_operations (req_timeout req) (p req)).

Definition duration (p : peer) (req : request) : Z :=
  snd (run_operations (req_timeout req) (p req)).

(** The request that [_post] builds from the octets of its body. *)
Definition post_request (endpoint : str) (data : bytes) (is_encrypted : bool)
  : request :=
  {| req_url := BASE_URL ++ endpoint;
     req_data := Octets data;
     req_method := lit "POST";
     req_headers :=
       [(lit "Content-Type", lit "application/json; charset=utf-8");
        (lit "Accept", lit "application/json, text/plain, */*")]
       ++ (if is_encrypted then []
           else [(lit "Referer", lit "https://share-h5.xbloom.com/")]);
     req_timeout := 15 |}.

(** A peer that delivers the text [{}] in [n + 2] pieces, ten seconds
    before each: the opening brace, [n] empty pieces, the closing brace. *)
Definition trickling_peer (n : nat) : peer :=
  fun _ => (10%Z, [x7b]) :: repeat (10%Z, []) n ++ [(10%Z, [x7d])].

Definition slow_peer : peer := trickling_peer 1.

(** A peer that stalls for twenty seconds before it answers. *)
Definition stalling_peer : peer :=
  fun _ => [(1%Z, []); (20%Z, [x7b; x7d])].
(** * Properties *)

(** ** Lists: slices and chunks *)

Section Slices.
Variable A : Type.
Implicit Types l : list A.

Lemma firstn_plus : forall a b l,
  firstn (a + b) l = firstn a l ++ firstn b (skipn a l).
Proof.
  induction a as [|a IH]; intros b l; simpl.
  - reflexivity.
  - destruct l as [|x l]; simpl.
    + now rewrite firstn_nil.
    + now rewrite IH.
Qed.

(** The slice the loop cuts out for block [i] is the next [m] elements, or
    what is left of the list. *)
Lemma slice_block : forall m i l,
  slice l (i * m) (Nat.min (i * m + m) (length l)) = firstn m (skipn (i * m) l).
Proof.
  intros m i l. unfold slice.
  destruct (Nat.le_gt_cases (i * m + m) (length l)) as [H|H].
  - rewrite Nat.min_l by assumption. f_equal. lia.
  - rewrite Nat.min_r by lia.
    rewrite !firstn_all2; try reflexivity; rewrite length_skipn; lia.
Qed.

Lemma concat_blocks_prefix : forall m n l,
  concat (map (fun i => firstn m (skipn (i * m) l)) (seq 0 n))
  = firstn (n * m) l.
Proof.
  intros m n l. induction n as [|n IH].
  - reflexivity.
  - rewrite seq_S, map_app, concat_app, IH. simpl.
    rewrite app_nil_r, (Nat.add_comm m (n * m)). symmetry. apply firstn_plus.
Qed.
End Slices.

Lemma ceil_div_bounds : forall a b, 0 < b ->
  a <= ceil_div a b * b /\ (0 < a -> (ceil_div a b - 1) * b < a).
Proof.
  intros a b Hb. unfold ceil_div.
  pose proof (Nat.div_mod_eq a b) as E.
  pose proof (Nat.mod_upper_bound a b ltac:(lia)) as U.
  destruct (Nat.eqb_spec (a mod b) 0) as [Z|NZ].
  - rewrite Z in E. split; [nia|]. intros Ha.
    destruct (a / b) as [|q]; [nia|]. simpl. nia.
  - split; [nia|]. intros _. simpl. nia.
Qed.

Lemma ceil_div_zero : forall b, 0 < b -> ceil_div 0 b = 0.
Proof.
  intros b Hb. unfold ceil_div.
  rewrite Nat.Div0.mod_0_l, Nat.Div0.div_0_l. reflexivity.
Qed.

(** ** The block cipher codec *)

Lemma Z_of_byte_range : forall b, (0 <= Z_of_byte b < 256)%Z.
Proof.
  intros b. unfold Z_of_byte. pose proof (Byte.to_N_bounded b). lia.
Qed.

Lemma length_i2osp : forall k z, length (RSA.i2osp k z) = k.
Proof.
  induction k as [|k IH]; intros z; simpl.
  - reflexivity.
  - rewrite length_app, IH. simpl. lia.
Qed.

Lemma os2ip_fold_bound : forall b acc, (0 <= acc)%Z ->
  (0 <= fold_left (fun a x => a * 256 + Z_of_byte x) b acc
     < (acc + 1) * 256 ^ Z.of_nat (length b))%Z.
Proof.
  induction b as [|x b IH]; intros acc Hacc; simpl fold_left.
  - simpl. lia.
  - pose proof (Z_of_byte_range x) as Hx.
    specialize (IH (acc * 256 + Z_of_byte x)%Z ltac:(lia)).
    change (length (x :: b)) with (S (length b)).
    rewrite Nat2Z.inj_succ, Z.pow_succ_r by lia.
    assert (0 < 256 ^ Z.of_nat (length b))%Z by (apply Z.pow_pos_nonneg; lia).
    nia.
Qed.

Lemma os2ip_bound : forall b, (0 <= RSA.os2ip b < 256 ^ Z.of_nat (length b))%Z.
Proof.
  intros b. pose proof (os2ip_fold_bound b 0%Z ltac:(lia)) as H.
  unfold RSA.os2ip. lia.
Qed.

Lemma os2ip_leading_zero : forall b, RSA.os2ip (x00 :: b) = RSA.os2ip b.
Proof. reflexivity. Qed.

Lemma modexp_pos_spec : forall b e n, (0 < n)%Z ->
  RSA.modexp_pos b e n = (b ^ Zpos e mod n)%Z.
Proof.
  intros b e n Hn. induction e as [e IH|e IH|]; simpl RSA.modexp_pos.
  - rewrite IH, Pos2Z.inj_xI.
    replace (2 * Z.pos e + 1)%Z with (Z.pos e + Z.pos e + 1)%Z by lia.
    rewrite !Z.pow_add_r, Z.pow_1_r by lia.
    rewrite <- Z.mul_mod by lia.
    rewrite Z.mul_mod_idemp_l by lia. reflexivity.
  - rewrite IH, Pos2Z.inj_xO.
    replace (2 * Z.pos e)%Z with (Z.pos e + Z.pos e)%Z by lia.
    rewrite Z.pow_add_r by lia.
    rewrite <- Z.mul_mod by lia. reflexivity.
  - now rewrite Z.pow_1_r.
Qed.

Section Codec.
Variable key : RSA.public_key.
Hypothesis key_len : RSA.key_bytes key = RSA_KEY_BYTES.
Hypothesis key_top : (256 ^ 127 <= RSA.modulus key)%Z.

Variable rnd : RSA.entropy.

(** A block of at most 117 octets is always accepted, and its ciphertext
    has the size of the key. *)
Lemma encrypt_block_ok : forall cur m,
  length m <= RSA_MAX_PLAIN_BLOCK ->
  exists c, RSA.encrypt key rnd cur m = Ok (c, cur + (125 - length m))
            /\ length c = RSA_KEY_BYTES.
Proof.
  intros cur m Hm. unfold RSA.encrypt. rewrite key_len.
  unfold RSA_KEY_BYTES, RSA_MAX_PLAIN_BLOCK in *.
  replace (128 - 11 <? length m) with false
    by (symmetry; apply Nat.ltb_ge; lia).
  replace (128 - 3 - length m) with (125 - length m) by lia.
  set (ps := RSA.draw_padding rnd cur (125 - length m)).
  assert (Hps : length ps = 125 - length m)
    by (unfold ps, RSA.draw_padding; now rewrite length_map, length_seq).
  unfold RSA.eme_encode. rewrite os2ip_leading_zero.
  pose proof (os2ip_bound (x02 :: ps ++ x00 :: m)) as B.
  assert (L : length (x02 :: ps ++ x00 :: m) = 127)
    by (simpl; rewrite length_app; simpl; lia).
  rewrite L in B. change (Z.of_nat 127) with 127%Z in B.
  replace (RSA.modulus key <=? RSA.os2ip (x02 :: ps ++ x00 :: m))%Z
    with false by (symmetry; apply Z.leb_gt; lia).
  eexists. split; [reflexivity|]. apply length_i2osp.
Qed.

Lemma block_at_length : forall plaintext i,
  length (block_at plaintext i) <= RSA_MAX_PLAIN_BLOCK.
Proof. intros plaintext i. unfold block_at. apply firstn_le_length. Qed.

Variable plaintext : bytes.

Lemma rsa_encrypt_step_block : forall i acc cur,
  rsa_encrypt_step key rnd plaintext i (acc, cur)
  = ('(encrypted, cur') <- RSA.encrypt key rnd cur (block_at plaintext i) ;;
     Ok (acc ++ encrypted, cur')).
Proof.
  intros i acc cur. unfold rsa_encrypt_step.
  rewrite (slice_block _ RSA_MAX_PLAIN_BLOCK i plaintext). reflexivity.
Qed.

(** Each pass of the loop appends the encryption of the next block. *)
Lemma rsa_encrypt_loop : forall idx acc cur,
  exists cts cur',
    for_each idx (rsa_encrypt_step key rnd plaintext) (acc, cur)
      = Ok (acc ++ concat cts, cur')
    /\ Forall2 (fun b c => exists c0 c1, RSA.encrypt key rnd c0 b = Ok (c, c1))
         (map (block_at plaintext) idx) cts
    /\ Forall (fun c => length c = RSA_KEY_BYTES) cts.
Proof.
  induction idx as [|i idx IH]; intros acc cur.
  - exists [], cur. simpl. rewrite app_nil_r. repeat split; constructor.
  - destruct (encrypt_block_ok cur (block_at plaintext i)
                (block_at_length plaintext i)) as (c & Hc & Lc).
    destruct (IH (acc ++ c) (cur + (125 - length (block_at plaintext i))))
      as (cts & cur' & Hrun & Hrel & Hlen).
    exists (c :: cts), cur'. split; [|split].
    + cbn [for_each]. rewrite rsa_encrypt_step_block, Hc. cbn [bind].
      etransitivity; [exact Hrun|].
      cbn [List.concat]. now rewrite <- app_assoc.
    + simpl. constructor; [|assumption].
      now exists cur, (cur + (125 - length (block_at plaintext i))).
    + now constructor.
Qed.
End Codec.

Lemma load_rsa_public_key_ok : _load_rsa_public_key = Ok xbloom_public_key.
Proof. vm_compute. reflexivity. Qed.

Lemma xbloom_key_len : RSA.key_bytes xbloom_public_key = RSA_KEY_BYTES.
Proof. vm_compute. reflexivity. Qed.

Lemma xbloom_key_top : (256 ^ 127 <= RSA.modulus xbloom_public_key)%Z.
Proof. apply Z.leb_le. vm_compute. reflexivity. Qed.

Lemma length_concat_const : forall (A : Type) (n : nat) (ls : list (list A)),
  Forall (fun l => length l = n) ls -> length (concat ls) = n * length ls.
Proof.
  intros A n ls H. induction H as [|l ls Hl _ IH]; simpl.
  - lia.
  - rewrite length_app, IH, Hl. lia.
Qed.

Lemma block_at_exact_length : forall (plaintext : bytes) (i : nat),
  length (block_at plaintext i)
  = Nat.min RSA_MAX_PLAIN_BLOCK (length plaintext - i * RSA_MAX_PLAIN_BLOCK).
Proof.
  intros plaintext i. unfold block_at.
  now rewrite length_firstn, length_skipn.
Qed.

Lemma blocks_cover : forall (plaintext : bytes),
  concat (map (block_at plaintext)
            (seq 0 (ceil_div (length plaintext) RSA_MAX_PLAIN_BLOCK)))
  = plaintext.
Proof.
  intros plaintext.
  etransitivity; [apply (concat_blocks_prefix byte RSA_MAX_PLAIN_BLOCK)|].
  apply firstn_all2.
  apply (ceil_div_bounds (length plaintext) RSA_MAX_PLAIN_BLOCK).
  unfold RSA_MAX_PLAIN_BLOCK. lia.
Qed.

(** C1: rsa_encrypt cuts the plaintext into ceil(L/117) consecutive blocks, all
    of 117 octets except possibly the last, which is never empty; it encrypts
    each block on its own into 128 octets and returns the ciphertext blocks
    concatenated in block order, nothing in between or in front, so the output
    has 128 * ceil(L/117) octets; the empty plaintext gives the empty
    output. *)
Theorem rsa_encrypt_chunking : forall (rnd : RSA.entropy) (plaintext : bytes),
  (exists blocks cts : list bytes,
      concat blocks = plaintext
      /\ length blocks = ceil_div (length plaintext) 117
      /\ Forall (fun b => 1 <= length b <= 117) blocks
      /\ (forall i b, nth_error blocks i = Some b ->
                      S i < length blocks -> length b = 117)
      /\ Forall2 (fun b c => exists c0 c1,
                    RSA.encrypt xbloom_public_key rnd c0 b = Ok (c, c1))
           blocks cts
      /\ Forall (fun c => length c = 128) cts
      /\ rsa_encrypt rnd plaintext = Ok (concat cts)
      /\ length (concat cts) = 128 * ceil_div (length plaintext) 117)
  /\ rsa_encrypt rnd [] = Ok [].
Proof.
  intros rnd plaintext. split; [|reflexivity].
  set (n := ceil_div (length plaintext) 117).
  destruct (rsa_encrypt_loop xbloom_public_key xbloom_key_len xbloom_key_top
              rnd plaintext
              (seq 0 n) [] 0) as (cts & cur' & Hrun & Hrel & Hlen).
  pose proof (ceil_div_bounds (length plaintext) 117 ltac:(lia)) as [Hup Hlow].
  fold n in Hup, Hlow.
  assert (Hn0 : forall i, i < n -> i * 117 < length plaintext).
  { intros i Hi. assert (0 < length plaintext).
    { destruct (Nat.eq_dec (length plaintext) 0) as [E|]; [exfalso|lia].
      unfold n in Hi. rewrite E, ceil_div_zero in Hi; lia. }
    specialize (Hlow ltac:(lia)). nia. }
  exists (map (block_at plaintext) (seq 0 n)), cts.
  assert (Hblocks : length (map (block_at plaintext) (seq 0 n)) = n)
    by now rewrite length_map, length_seq.
  repeat split.
  - apply blocks_cover.
  - exact Hblocks.
  - apply Forall_forall. intros b Hb.
    apply in_map_iff in Hb. destruct Hb as (i & <- & Hi).
    apply in_seq in Hi. rewrite block_at_exact_length.
    unfold RSA_MAX_PLAIN_BLOCK. specialize (Hn0 i ltac:(lia)). lia.
  - intros i b Hnth Hi. rewrite Hblocks in Hi.
    rewrite nth_error_map in Hnth.
    destruct (nth_error (seq 0 n) i) as [j|] eqn:Ej; [|discriminate].
    apply (nth_error_nth _ _ 0) in Ej. rewrite seq_nth in Ej by lia.
    simpl in Ej. subst j. injection Hnth as <-.
    rewrite block_at_exact_length. unfold RSA_MAX_PLAIN_BLOCK.
    specialize (Hn0 (S i) Hi). lia.
  - exact Hrel.
  - exact Hlen.
  - unfold rsa_encrypt. rewrite load_rsa_public_key_ok. cbn [bind].
    unfold for_range. fold n.
    change (for_each (seq 0 n)
              (rsa_encrypt_step xbloom_public_key rnd plaintext) ([], 0))
      with (for_each (seq 0 n)
              (rsa_encrypt_step xbloom_public_key rnd plaintext)
              (@nil byte, 0)).
    etransitivity; [apply f_equal2; [exact Hrun|reflexivity]|].
    reflexivity.
  - etransitivity; [apply (length_concat_const byte 128 cts Hlen)|].
    apply Forall2_length in Hrel. rewrite Hblocks in Hrel.
    f_equal. symmetry. exact Hrel.
Qed.


(** *** The padding octets are the only source of variation *)

Lemma draw_padding_ext : forall (r1 r2 : RSA.entropy) cur len,
  (forall i, cur <= i < cur + len ->
             RSA.nonzero_octet (r1 i) = RSA.nonzero_octet (r2 i)) ->
  RSA.draw_padding r1 cur len = RSA.draw_padding r2 cur len.
Proof.
  intros r1 r2 cur len H. unfold RSA.draw_padding.
  apply map_ext_in. intros i Hi. apply in_seq in Hi. now apply H.
Qed.

Lemma encrypt_ext : forall key (r1 r2 : RSA.entropy) cur m,
  (forall i, cur <= i < cur + (RSA.key_bytes key - 3 - length m) ->
             RSA.nonzero_octet (r1 i) = RSA.nonzero_octet (r2 i)) ->
  RSA.encrypt key r1 cur m = RSA.encrypt key r2 cur m.
Proof.
  intros key r1 r2 cur m H. unfold RSA.encrypt.
  now rewrite (draw_padding_ext r1 r2 cur _ H).
Qed.

Lemma padding_drawn_complement : forall (plaintext : bytes) (idx : list nat),
  padding_drawn plaintext idx
  + list_sum (map (fun i => length (block_at plaintext i)) idx)
  = 125 * length idx.
Proof.
  intros plaintext idx. unfold padding_drawn, list_sum.
  induction idx as [|i idx IH]; cbn [map fold_right length].
  - reflexivity.
  - pose proof (block_at_length plaintext i) as Hb.
    unfold RSA_MAX_PLAIN_BLOCK in Hb. lia.
Qed.

Lemma padding_drawn_total : forall (plaintext : bytes),
  padding_drawn plaintext
    (seq 0 (ceil_div (length plaintext) RSA_MAX_PLAIN_BLOCK))
  = 125 * ceil_div (length plaintext) RSA_MAX_PLAIN_BLOCK - length plaintext.
Proof.
  intros plaintext.
  set (idx := seq 0 (ceil_div (length plaintext) RSA_MAX_PLAIN_BLOCK)).
  pose proof (padding_drawn_complement plaintext idx) as S.
  assert (T : list_sum (map (fun i => length (block_at plaintext i)) idx)
              = length plaintext).
  { transitivity (length (concat (map (block_at plaintext) idx))).
    - now rewrite length_concat, map_map.
    - f_equal. apply blocks_cover. }
  unfold idx in S at 3. rewrite length_seq in S. fold idx. lia.
Qed.

Lemma rsa_encrypt_loop_ext : forall key (r1 r2 : RSA.entropy) plaintext,
  RSA.key_bytes key = RSA_KEY_BYTES ->
  (256 ^ 127 <= RSA.modulus key)%Z ->
  forall idx acc cur,
    (forall i, cur <= i < cur + padding_drawn plaintext idx ->
               RSA.nonzero_octet (r1 i) = RSA.nonzero_octet (r2 i)) ->
    for_each idx (rsa_encrypt_step key r1 plaintext) (acc, cur)
    = for_each idx (rsa_encrypt_step key r2 plaintext) (acc, cur).
Proof.
  intros key r1 r2 plaintext Hlen Htop.
  induction idx as [|i idx IH]; intros acc cur Hagree.
  - reflexivity.
  - cbn [for_each]. rewrite !rsa_encrypt_step_block.
    change (padding_drawn plaintext (i :: idx))
      with ((125 - length (block_at plaintext i))
            + padding_drawn plaintext idx) in Hagree.
    rewrite (encrypt_ext key r1 r2 cur (block_at plaintext i)).
    + destruct (encrypt_block_ok key Hlen Htop r2 cur (block_at plaintext i)
                  (block_at_length plaintext i)) as (c & Hc & _).
      rewrite Hc. cbn [bind]. apply IH.
      intros j Hj. apply Hagree. lia.
    + intros j Hj. apply Hagree. rewrite Hlen in Hj. unfold RSA_KEY_BYTES in Hj.
      lia.
Qed.

(** Two invocations of [rsa_encrypt] on one plaintext need not agree: with the
    padding octets all 02 in one and all 03 in the other, the ciphertexts of
    the one-octet plaintext ["a"] differ. *)
Lemma rsa_encrypt_two_invocations_differ :
  rsa_encrypt (fun _ => x01) [x61] <> rsa_encrypt (fun _ => x02) [x61].
Proof. intros H. vm_compute in H. discriminate H. Qed.

(** C2 (amended): rsa_encrypt is deterministic given the plaintext and the
    padding octets that PKCS #1 v1.5 draws: two invocations on the same
    plaintext whose entropy sources deliver the same 125 * ceil(L/117) - L
    padding octets return the same result. *)
Theorem rsa_encrypt_determined_by_padding :
  forall (r1 r2 : RSA.entropy) (plaintext : bytes),
    (forall i, i < 125 * ceil_div (length plaintext) 117 - length plaintext ->
               RSA.nonzero_octet (r1 i) = RSA.nonzero_octet (r2 i)) ->
    rsa_encrypt r1 plaintext = rsa_encrypt r2 plaintext.
Proof.
  intros r1 r2 plaintext H. unfold rsa_encrypt.
  rewrite load_rsa_public_key_ok. cbn [bind]. unfold for_range.
  rewrite (rsa_encrypt_loop_ext xbloom_public_key r1 r2 plaintext
             xbloom_key_len xbloom_key_top _ [] 0); [reflexivity|].
  intros i Hi. apply H. rewrite padding_drawn_total in Hi.
  unfold RSA_MAX_PLAIN_BLOCK in Hi. lia.
Qed.

Lemma rsa_encrypt_determined_by_padding_witness :
  (forall i, i < 125 * ceil_div (length [x61]) 117 - length [x61] ->
             RSA.nonzero_octet (tape_a i) = RSA.nonzero_octet (tape_b i))
  /\ rsa_encrypt tape_a [x61] = rsa_encrypt tape_b [x61].
Proof.
  assert (H : forall i, i < 125 * ceil_div (length [x61]) 117 - length [x61] ->
              RSA.nonzero_octet (tape_a i) = RSA.nonzero_octet (tape_b i)).
  { intros i Hi. change (i < 124) in Hi. unfold tape_a, tape_b.
    apply Nat.ltb_lt in Hi. rewrite Hi. reflexivity. }
  split; [exact H|].
  apply (rsa_encrypt_determined_by_padding tape_a tape_b [x61] H).
Defined.

(** ** The share identifier *)

Lemma starts_with_app : forall p s, starts_with p (p ++ s) = true.
Proof.
  induction p as [|a p IH]; intros s; simpl.
  - reflexivity.
  - now rewrite N.eqb_refl, IH.
Qed.

Lemma starts_with_inv : forall p s,
  starts_with p s = true -> exists r, s = p ++ r.
Proof.
  induction p as [|a p IH]; intros s H.
  - now exists s.
  - destruct s as [|b s]; [discriminate|]. simpl in H.
    apply andb_prop in H. destruct H as [Hab Hp].
    apply N.eqb_eq in Hab. subst b.
    destruct (IH s Hp) as (r & ->). now exists r.
Qed.

Lemma contains_app_r : forall sub pre post,
  contains sub (pre ++ sub ++ post) = true.
Proof.
  intros sub pre post. induction pre as [|c pre IH].
  - simpl app. destruct (sub ++ post) eqn:E; simpl; rewrite <- ?E;
      now rewrite starts_with_app.
  - simpl. rewrite IH. apply orb_true_r.
Qed.

Lemma contains_false_tail : forall sub c s,
  contains sub (c :: s) = false ->
  starts_with sub (c :: s) = false /\ contains sub s = false.
Proof. intros sub c s H. simpl in H. now apply orb_false_elim in H. Qed.

(** Without an occurrence of the separator there is a single piece. *)
Lemma split_go_no_sep : forall sep s cur,
  contains sep s = false -> split_go sep 0 s cur = [cur ++ s].
Proof.
  intros sep s. induction s as [|c s IH]; intros cur H.
  - simpl. now rewrite app_nil_r.
  - apply contains_false_tail in H. destruct H as [Hs Hc].
    cbn [split_go]. rewrite Hs, (IH _ Hc), <- app_assoc. reflexivity.
Qed.

Lemma split_go_skip : forall sep a b cur,
  split_go sep (length a) (a ++ b) cur = split_go sep 0 b cur.
Proof.
  intros sep a. induction a as [|x a IH]; intros b cur.
  - destruct b; reflexivity.
  - simpl. apply IH.
Qed.

(** At an occurrence of the separator the current piece is closed. *)
Lemma split_go_at_sep : forall c sep' rest cur,
  split_go (c :: sep') 0 ((c :: sep') ++ rest) cur
  = cur :: split_go (c :: sep') 0 rest [].
Proof.
  intros c sep' rest cur.
  change ((c :: sep') ++ rest) with (c :: (sep' ++ rest)).
  cbn [split_go].
  change (c :: sep' ++ rest) with ((c :: sep') ++ rest).
  rewrite starts_with_app. f_equal.
  replace (length (c :: sep') - 1) with (length sep') by (simpl; lia).
  apply split_go_skip.
Qed.

Lemma split_go_at_id : forall rest cur,
  split_go (lit "id=") 0 (lit "id=" ++ rest) cur
  = cur :: split_go (lit "id=") 0 rest [].
Proof. intros rest cur. exact (split_go_at_sep 105 [100; 61]%N rest cur). Qed.

Lemma split_go_nonempty : forall sep skip s cur, split_go sep skip s cur <> [].
Proof.
  intros sep skip s. revert skip.
  induction s as [|c s IH]; intros skip cur; simpl.
  - discriminate.
  - destruct skip; [|apply IH].
    destruct (starts_with sep (c :: s)); [discriminate|apply IH].
Qed.

Lemma last_cons_nonempty : forall (A : Type) (x d : A) (l : list A),
  l <> [] -> last (x :: l) d = last l d.
Proof. intros A x d l H. destruct l; [contradiction|reflexivity]. Qed.

(** The last piece of [split("id=")] is what follows the last ["id="]. *)
Lemma split_id_last : forall n pre post cur,
  length pre <= n ->
  contains (lit "id=") post = false ->
  last (split_go (lit "id=") 0 (pre ++ lit "id=" ++ post) cur) [] = post.
Proof.
  induction n as [|n IH]; intros pre post cur Hn Hpost.
  - destruct pre; [|simpl in Hn; lia].
    change ([] ++ lit "id=" ++ post) with (lit "id=" ++ post).
    rewrite split_go_at_id, split_go_no_sep by exact Hpost. reflexivity.
  - destruct pre as [|c pre].
    { apply (IH [] post cur); [simpl; lia|exact Hpost]. }
    destruct (starts_with (lit "id=") ((c :: pre) ++ lit "id=" ++ post)) eqn:Hs.
    + (* an earlier occurrence: it lies within [pre] *)
      apply starts_with_inv in Hs. destruct Hs as (r & Hr).
      change (lit "id=") with [105; 100; 61]%N in Hr.
      destruct pre as [|c2 [|c3 pre]]; simpl in Hr; try discriminate Hr.
      injection Hr as -> -> -> _.
      change ((105 :: 100 :: 61 :: pre)%N ++ lit "id=" ++ post)
        with (lit "id=" ++ (pre ++ lit "id=" ++ post)).
      rewrite split_go_at_id.
      rewrite last_cons_nonempty by apply split_go_nonempty.
      apply IH; [simpl in Hn; lia|exact Hpost].
    + change ((c :: pre) ++ lit "id=" ++ post)
        with (c :: (pre ++ lit "id=" ++ post)) in *.
      cbn [split_go]. rewrite Hs.
      apply IH; [simpl in Hn; lia|exact Hpost].
Qed.

(** The first piece of [split("&")] stops at the first ["&"]. *)
Lemma split_amp_first : forall s cur,
  hd [] (split_go (lit "&") 0 s cur) = cur ++ take_until 38 s.
Proof.
  induction s as [|c s IH]; intros cur.
  - simpl. now rewrite app_nil_r.
  - cbn [split_go take_until].
    change (starts_with (lit "&") (c :: s)) with ((38 =? c)%N && true).
    rewrite andb_true_r, (N.eqb_sym 38 c).
    destruct (c =? 38)%N.
    + simpl. now rewrite app_nil_r.
    + rewrite IH, <- app_assoc. reflexivity.
Qed.

(** The id of a link: what follows the last ["id="] up to the next ["&"]. *)
Lemma parse_share_id_of_link : forall s pre post,
  strip s = pre ++ lit "id=" ++ post ->
  contains (lit "id=") post = false ->
  parse_share_id s = unquote (take_until 38 post).
Proof.
  intros s pre post Hs Hpost. unfold parse_share_id.
  rewrite Hs, contains_app_r. unfold split.
  rewrite (split_id_last (length pre) pre post [] (le_n _) Hpost).
  now rewrite split_amp_first.
Qed.

(** C6 (the code at the failing input): a link whose [id] parameter is
    followed by a parameter whose name ends in [id] does not give the value
    of [id].  [split("id=")[-1]] takes what follows the last occurrence of
    the three characters, so [...?id=ABC123&uid=5] gives ["5"] and not
    ["ABC123"]; in general the result is the decoded text between the last
    ["id="] of the stripped input and the next ["&"].  With a single
    ["id="] the examples of the specification come out as stated; a raw id
    is stripped of surrounding blanks before it is decoded. *)
Theorem parse_share_id_reads_last_id_substring :
  parse_share_id (lit "https://share.example/x?id=ABC123&uid=5") = lit "5"
  /\ parse_share_id (lit "https://share.example/x?id=ABC123&uid=5")
     <> lit "ABC123"
  /\ parse_share_id (lit "https://share.example/x?id=ABC123&pid=9&foo=1")
     = lit "9"
  /\ (forall s pre post,
        strip s = pre ++ lit "id=" ++ post ->
        contains (lit "id=") post = false ->
        parse_share_id s = unquote (take_until 38 post))
  /\ parse_share_id (lit "https://share.example/x?id=ABC123&foo=1")
     = lit "ABC123"
  /\ parse_share_id (lit "ABC123") = lit "ABC123"
  /\ parse_share_id (lit "ABC%20123") = lit "ABC 123"
  /\ parse_share_id (lit " ABC123") = lit "ABC123".
Proof.
  split; [reflexivity|]. split; [vm_compute; discriminate|].
  split; [reflexivity|]. split; [exact parse_share_id_of_link|].
  repeat split; reflexivity.
Qed.

(** ** The credential file and the base envelope *)

Lemma load_auth_missing : load_auth Missing = Ok JNull.
Proof. reflexivity. Qed.

Lemma load_auth_unreadable : load_auth Unreadable = Ok JNull.
Proof. reflexivity. Qed.

(** Text that is not JSON is taken for no credentials at all. *)
Lemma load_auth_not_json : forall content mode text,
  UTF8.decode content = Ok text ->
  Json.loads (universal_newlines text) = Raise JSONDecodeError ->
  load_auth (Present content mode) = Ok JNull.
Proof.
  intros content mode text Hd Hj. unfold load_auth, read_text.
  cbn [exists_ negb]. rewrite Hd. cbn [bind]. now rewrite Hj.
Qed.

(** Octets that are not UTF-8 are not: the decoding error gets through. *)
Lemma load_auth_not_utf8 : forall content mode,
  UTF8.decode content = Raise UnicodeDecodeError ->
  load_auth (Present content mode) = Raise UnicodeDecodeError.
Proof.
  intros content mode Hd. unfold load_auth, read_text.
  cbn [exists_ negb]. now rewrite Hd.
Qed.

(** C10 (the code at the failing input): a credential file that holds the
    single octet FF, which is not UTF-8, makes load_auth raise
    UnicodeDecodeError, and the envelope builder called without a token
    raises with it; a file holding the JSON text [[1]] makes the builder
    raise AttributeError. *)
Theorem load_auth_raises_on_undecodable_file :
  load_auth (Present [xff] 384) = Raise UnicodeDecodeError
  /\ _make_base_form 5 [] (Present [xff] 384) = Raise UnicodeDecodeError
  /\ load_auth (file_of_text "[1]") = Ok (JList [JInt 1])
  /\ _make_base_form 5 [] (file_of_text "[1]") = Raise AttributeError.
Proof. repeat split; reflexivity. Qed.



(** ** The envelope of [list_my_recipes] *)

Lemma make_base_form_inv : forall member_id token f base,
  _make_base_form member_id token f = Ok base ->
  exists tok, base = base_fields member_id tok.
Proof.
  intros member_id token f base H. unfold _make_base_form in H.
  destruct (if negb (truthy (JStr token)) then load_auth f else Ok JNull)
    as [auth|e]; [|discriminate H]. cbn [bind] in H.
  destruct (if truthy (JStr token) then Ok (JStr token)
            else if truthy auth then py_get auth (lit "token") (JStr [])
                 else Ok (JStr [])) as [tok|e]; [|discriminate H].
  cbn [bind] in H. injection H as <-. now exists tok.
Qed.

(** C8: the envelope of list_my_recipes holds pageNumber = 1 and
    countPerPage = 100 next to the base fields; with adapted_model = 0 it has
    no adaptedModel field, and with any other value it has adaptedModel equal
    to that value. *)
Theorem list_my_recipes_envelope : forall member_id adapted_model f base,
  _make_base_form member_id [] f = Ok base ->
  exists form,
    list_my_recipes_form member_id adapted_model f = Ok form
    /\ dict_get form (lit "pageNumber") = Some (JInt 1)
    /\ dict_get form (lit "countPerPage") = Some (JInt 100)
    /\ (adapted_model = 0%Z -> dict_get form (lit "adaptedModel") = None)
    /\ (adapted_model <> 0%Z ->
        dict_get form (lit "adaptedModel") = Some (JInt adapted_model))
    /\ (forall rnd net,
          list_my_recipes rnd net member_id adapted_model f
          = (encrypted_body <- encrypt_form rnd (JDict form) ;;
             _post net (lit "tuMyTeaRecipeCreated.tuhtml")
               (JStr encrypted_body) true)).
Proof.
  intros member_id adapted_model f base H.
  destruct (make_base_form_inv _ _ _ _ H) as (tok & ->).
  unfold list_my_recipes, list_my_recipes_form. rewrite H. cbn [bind truthy].
  destruct (Z.eqb_spec adapted_model 0) as [->|Hnz]; cbn [negb];
    eexists; (split; [reflexivity|]); repeat split;
    try reflexivity; intros; try contradiction; try reflexivity.
Qed.

Lemma list_my_recipes_envelope_witness :
  _make_base_form 7 [] stored_record = Ok (base_fields 7 (JStr (lit "abc")))
  /\ exists form,
       list_my_recipes_form 7 2 stored_record = Ok form
       /\ dict_get form (lit "pageNumber") = Some (JInt 1)
       /\ dict_get form (lit "countPerPage") = Some (JInt 100)
       /\ (2%Z = 0%Z -> dict_get form (lit "adaptedModel") = None)
       /\ (2%Z <> 0%Z -> dict_get form (lit "adaptedModel") = Some (JInt 2))
       /\ (forall rnd net,
             list_my_recipes rnd net 7 2 stored_record
             = (encrypted_body <- encrypt_form rnd (JDict form) ;;
                _post net (lit "tuMyTeaRecipeCreated.tuhtml")
                  (JStr encrypted_body) true)).
Proof.
  split; [reflexivity|].
  apply (list_my_recipes_envelope 7 2 stored_record
           (base_fields 7 (JStr (lit "abc")))).
  reflexivity.
Defined.

(** ** The transport and the composite encoding *)

Lemma byte_of_N_to_N : forall x, byte_of_N (Byte.to_N x) = x.
Proof.
  intros x. unfold byte_of_N. pose proof (Byte.to_N_bounded x) as Hx.
  rewrite N.mod_small by lia. now rewrite Byte.of_to_N.
Qed.

Lemma utf8_encode_ascii : forall s,
  Forall (fun c => (c < 128)%N) s -> UTF8.encode s = Ok (map byte_of_N s).
Proof.
  intros s H. induction H as [|c s Hc _ IH].
  - reflexivity.
  - cbn [UTF8.encode map]. unfold UTF8.encode_char.
    apply N.ltb_lt in Hc. rewrite Hc. cbn [bind]. now rewrite IH.
Qed.

Lemma decode_ascii_of_ascii : forall b,
  Forall (fun x => (Byte.to_N x < 128)%N) b ->
  Base64.decode_ascii b = Ok (map Byte.to_N b).
Proof.
  intros b H. induction H as [|x b Hx _ IH].
  - reflexivity.
  - cbn [Base64.decode_ascii map]. apply N.ltb_lt in Hx. rewrite Hx.
    now rewrite IH.
Qed.

Lemma base64_alphabet_ascii :
  Forall (fun x => (Byte.to_N x < 128)%N) Base64.alphabet.
Proof.
  apply Forall_forall. intros x Hx.
  assert (H : forallb (fun y => (Byte.to_N y <? 128)%N) Base64.alphabet = true)
    by (vm_compute; reflexivity).
  rewrite forallb_forall in H. apply N.ltb_lt. now apply H.
Qed.

Lemma base64_char_ascii : forall v, (Byte.to_N (Base64.char_of v) < 128)%N.
Proof.
  intros v. unfold Base64.char_of.
  pose proof base64_alphabet_ascii as H. rewrite Forall_forall in H.
  apply H. apply nth_In.
  change (length Base64.alphabet) with 64.
  pose proof (N.mod_upper_bound v 64 ltac:(lia)). lia.
Qed.

(** Induction three octets at a time, the way base64 consumes them. *)
Lemma triples_ind : forall (A : Type) (P : list A -> Prop),
  P [] -> (forall a, P [a]) -> (forall a b, P [a; b]) ->
  (forall a b c r, P r -> P (a :: b :: c :: r)) ->
  forall l, P l.
Proof.
  intros A P H0 H1 H2 H3 l.
  assert (G : forall n l, length l <= n -> P l).
  { induction n as [|n IH]; intros l' Hl.
    - destruct l'; [exact H0|simpl in Hl; lia].
    - destruct l' as [|a [|b [|c r]]]; auto.
      apply H3. apply IH. simpl in Hl. lia. }
  apply (G (length l)). lia.
Qed.

Lemma b64encode_ascii : forall data,
  Forall (fun x => (Byte.to_N x < 128)%N) (Base64.b64encode data).
Proof.
  assert (Hpad : (Byte.to_N Base64.pad_char < 128)%N) by (vm_compute; reflexivity).
  intros data. induction data using triples_ind;
    cbn [Base64.b64encode]; repeat constructor;
    try apply base64_char_ascii; try exact Hpad; assumption.
Qed.

Lemma b64encode_length : forall data,
  length (Base64.b64encode data) = 4 * ceil_div (length data) 3.
Proof.
  intros data. induction data as [| | |a b c r IH] using triples_ind;
    try reflexivity.
  cbn [Base64.b64encode length]. rewrite IH.
  replace (S (S (S (length r)))) with (length r + 1 * 3) by lia.
  unfold ceil_div. rewrite Nat.Div0.mod_add, Nat.div_add by lia.
  destruct (length r mod 3 =? 0); lia.
Qed.

(** The text that [encrypt_form] returns for a ciphertext is its base64
    encoding, and sending it as an encrypted body puts just those octets on
    the wire. *)
Lemma base64_text_roundtrip : forall data,
  Base64.decode_ascii (Base64.b64encode data)
  = Ok (map Byte.to_N (Base64.b64encode data))
  /\ UTF8.encode (map Byte.to_N (Base64.b64encode data))
     = Ok (Base64.b64encode data).
Proof.
  intros data. pose proof (b64encode_ascii data) as H. split.
  - now apply decode_ascii_of_ascii.
  - rewrite utf8_encode_ascii.
    + rewrite map_map. f_equal. rewrite <- (map_id (Base64.b64encode data)) at 2.
      apply map_ext. apply byte_of_N_to_N.
    + apply Forall_map. exact H.
Qed.

(** *** The transport *)

Lemma post_request_encrypted : forall endpoint s b,
  UTF8.encode s = Ok b ->
  _post_request endpoint (JStr s) true = Ok (post_request endpoint b true).
Proof.
  intros endpoint s b Hb. unfold _post_request. now rewrite Hb.
Qed.

Lemma post_request_plain : forall endpoint body b,
  UTF8.encode (Json.dumps false (lit ", ") (lit ": ") body) = Ok b ->
  _post_request endpoint body false = Ok (post_request endpoint b false).
Proof.
  intros endpoint body b Hb. unfold _post_request. now rewrite Hb.
Qed.

(** An exchange in which an operation stalls beyond the time-out fails. *)
Lemma run_operations_stall : forall timeout ops,
  Exists (fun op => (timeout < fst op)%Z) ops ->
  fst (run_operations timeout ops) = Raise OSError.
Proof.
  intros timeout ops H. induction H as [[wait chunk] ops Hw|[wait chunk] ops _ IH];
    cbn [run_operations fst] in *.
  - apply Z.ltb_lt in Hw. now rewrite Hw.
  - destruct (timeout <? wait)%Z; [reflexivity|].
    destruct (run_operations timeout ops) as [r t]. cbn [fst] in *.
    now rewrite IH.
Qed.

(** An exchange whose operations all stay within the time-out delivers the
    whole body, after the sum of the waits. *)
Lemma run_operations_complete : forall timeout ops,
  Forall (fun op => (fst op <= timeout)%Z) ops ->
  run_operations timeout ops
  = (Ok (concat (map snd ops)), fold_right Z.add 0%Z (map fst ops)).
Proof.
  intros timeout ops H. induction H as [|[wait chunk] ops Hw _ IH];
    [reflexivity|].
  cbn [run_operations map concat fold_right fst snd] in *.
  apply Z.ltb_ge in Hw. now rewrite Hw, IH.
Qed.

(** No operation is waited for longer than the time-out. *)
Lemma run_operations_bound : forall timeout ops,
  (0 <= timeout)%Z ->
  Forall (fun op => (0 <= fst op)%Z) ops ->
  (0 <= snd (run_operations timeout ops) <= timeout * Z.of_nat (length ops))%Z.
Proof.
  intros timeout ops Ht H. induction H as [|[wait chunk] ops Hw _ IH].
  - cbn. lia.
  - cbn [run_operations fst] in *.
    destruct (Z.ltb_spec timeout wait) as [Hlt|Hge].
    + cbn [snd length]. nia.
    + destruct (run_operations timeout ops) as [r t]. cbn [snd length] in *.
      nia.
Qed.

Lemma trickling_peer_complete : forall n req,
  req_timeout req = 15%Z ->
  serve (trickling_peer n) req = Ok [x7b; x7d]
  /\ duration (trickling_peer n) req = (10 * (Z.of_nat n + 2))%Z.
Proof.
  intros n req H. unfold serve, duration. rewrite H.
  rewrite run_operations_complete.
  - cbn [fst snd]. unfold trickling_peer. split.
    + cbn [map concat snd app]. f_equal. f_equal.
      induction n as [|n IH]; [reflexivity|exact IH].
    + cbn [map fold_right fst]. rewrite map_app, fold_right_app.
      cbn [map fold_right fst].
      induction n as [|n IH]; [reflexivity|].
      cbn [repeat map fold_right fst]. lia.
  - unfold trickling_peer. constructor; [cbn; lia|].
    apply Forall_app. split; [|repeat constructor; cbn; lia].
    apply Forall_forall. intros op Hop. apply repeat_spec in Hop.
    subst op. cbn. lia.
Qed.

(** C9 (the counterexample): a peer that delivers the response in three
    pieces, ten seconds before each, is waited for thirty seconds, twice the
    time-out, and the call succeeds; with more pieces the call takes as
    long as one likes and still succeeds. *)
Lemma post_outlasts_the_timeout :
  _post (serve slow_peer) (lit "RecipeDetail.html") (JDict []) false
  = Ok (JDict [])
  /\ (forall req, req_timeout req = 15%Z -> duration slow_peer req = 30%Z)
  /\ (15 < 30)%Z
  /\ (forall n req,
        req_timeout req = 15%Z ->
        serve (trickling_peer n) req = Ok [x7b; x7d]
        /\ duration (trickling_peer n) req = (10 * (Z.of_nat n + 2))%Z).
Proof.
  split; [vm_compute; reflexivity|]. split; [|split; [lia|]].
  - intros req H. unfold duration. rewrite H. reflexivity.
  - exact trickling_peer_complete.
Qed.

(** C9 (amended): what [_post] does is to hand one request to [urlopen] and
    to parse the answer.  The request is a POST to the base URL followed by
    the endpoint, with Content-Type [application/json; charset=utf-8]; an
    encrypted call sends the octets of the body string itself, not wrapped
    in JSON, and no Referer; a plain call sends the JSON text of the mapping
    and the fixed Referer.  The time-out of 15 seconds bounds every blocking
    operation of the exchange: an operation that stalls longer makes the
    call raise, and no operation is waited for longer than 15 seconds; an
    exchange whose operations all complete in time is waited for to its
    end. *)
Theorem post_transport : forall (endpoint : str),
  (forall net s b,
     UTF8.encode s = Ok b ->
     _post net endpoint (JStr s) true
     = (raw <- net (post_request endpoint b true) ;;
        text <- UTF8.decode raw ;; Json.loads text))
  /\ (forall net body b,
        UTF8.encode (Json.dumps false (lit ", ") (lit ": ") body) = Ok b ->
        _post net endpoint body false
        = (raw <- net (post_request endpoint b false) ;;
           text <- UTF8.decode raw ;; Json.loads text))
  /\ (forall net ciphertext,
        _post net endpoint
          (JStr (map Byte.to_N (Base64.b64encode ciphertext))) true
        = (raw <- net (post_request endpoint
                         (Base64.b64encode ciphertext) true) ;;
           text <- UTF8.decode raw ;; Json.loads text))
  /\ (forall b is_encrypted,
        req_url (post_request endpoint b is_encrypted) = BASE_URL ++ endpoint
        /\ req_method (post_request endpoint b is_encrypted) = lit "POST"
        /\ req_data (post_request endpoint b is_encrypted) = Octets b
        /\ req_timeout (post_request endpoint b is_encrypted) = 15%Z
        /\ header (req_headers (post_request endpoint b is_encrypted))
             (lit "Content-Type")
           = Some (lit "application/json; charset=utf-8")
        /\ header (req_headers (post_request endpoint b is_encrypted))
             (lit "Referer")
           = (if is_encrypted then None
              else Some (lit "https://share-h5.xbloom.com/")))
  /\ (forall (p : peer) body is_encrypted req,
        _post_request endpoint body is_encrypted = Ok req ->
        Exists (fun op => (15 < fst op)%Z) (p req) ->
        _post (serve p) endpoint body is_encrypted = Raise OSError)
  /\ (forall (p : peer) body is_encrypted req,
        _post_request endpoint body is_encrypted = Ok req ->
        Forall (fun op => (0 <= fst op <= 15)%Z) (p req) ->
        _post (serve p) endpoint body is_encrypted
        = (text <- UTF8.decode (concat (map snd (p req))) ;; Json.loads text)
        /\ duration p req = fold_right Z.add 0%Z (map fst (p req)))
  /\ (forall (p : peer) body is_encrypted req,
        _post_request endpoint body is_encrypted = Ok req ->
        Forall (fun op => (0 <= fst op)%Z) (p req) ->
        (0 <= duration p req <= 15 * Z.of_nat (length (p req)))%Z)
  /\ _post (serve stalling_peer) endpoint (JDict []) false = Raise OSError.
Proof.
  intros endpoint.
  assert (Htimeout : forall body is_encrypted req,
             _post_request endpoint body is_encrypted = Ok req ->
             req_timeout req = 15%Z).
  { intros body enc req H. unfold _post_request in H.
    destruct (if enc then _ else _) as [data|e]; [|discriminate H].
    cbn [bind] in H. now injection H as <-. }
  repeat split.
  - intros net s b Hb. unfold _post.
    now rewrite (post_request_encrypted endpoint s b Hb).
  - intros net body b Hb. unfold _post.
    now rewrite (post_request_plain endpoint body b Hb).
  - intros net ciphertext. unfold _post.
    destruct (base64_text_roundtrip ciphertext) as [_ He].
    now rewrite (post_request_encrypted endpoint _ _ He).
  - now destruct is_encrypted.
  - intros p body enc req Hreq Hstall. unfold _post, serve.
    rewrite Hreq. cbn [bind]. rewrite (Htimeout _ _ _ Hreq).
    now rewrite (run_operations_stall 15 (p req) Hstall).
  - unfold _post, serve. rewrite H. cbn [bind].
    rewrite (Htimeout _ _ _ H), run_operations_complete; [reflexivity|].
    eapply Forall_impl; [|exact H0]. intros op Hop. cbv beta in *. lia.
  - unfold duration. rewrite (Htimeout _ _ _ H), run_operations_complete;
      [reflexivity|].
    eapply Forall_impl; [|exact H0]. intros op Hop. cbv beta in *. lia.
  - unfold duration. rewrite (Htimeout _ _ _ H).
    apply run_operations_bound; [lia|exact H0].
  - unfold duration. rewrite (Htimeout _ _ _ H).
    apply run_operations_bound; [lia|exact H0].
Qed.

(** *** Induction on JSON values *)

Lemma json_induction : forall (P : json -> Prop),
  P JNull -> (forall b, P (JBool b)) -> (forall z, P (JInt z)) ->
  (forall r, P (JFloat r)) -> (forall s, P (JStr s)) ->
  (forall l, Forall P l -> P (JList l)) ->
  (forall d, Forall (fun kv => P (snd kv)) d -> P (JDict d)) ->
  forall v, P v.
Proof.
  intros P Hnull Hbool Hint Hfloat Hstr Hlist Hdict.
  fix IH 1. intros [ |b|z|r|s|l|d].
  - exact Hnull.
  - apply Hbool.
  - apply Hint.
  - apply Hfloat.
  - apply Hstr.
  - apply Hlist. induction l as [|x l IHl]; constructor; [apply IH|exact IHl].
  - apply Hdict. induction d as [|kv d IHd]; constructor;
      [apply IH|exact IHd].
Qed.

(** *** Compact separators add no whitespace *)

Lemma printable_not_ws : forall c, (33 <= c)%N -> Json.is_ws c = false.
Proof.
  intros c H. unfold Json.is_ws.
  repeat (apply orb_false_intro); apply N.eqb_neq; lia.
Qed.

Lemma printable_check : forall s,
  forallb (fun c => (33 <=? c)%N) s = true -> Forall (fun c => (33 <= c)%N) s.
Proof.
  intros s H. rewrite forallb_forall in H. apply Forall_forall.
  intros c Hc. apply N.leb_le. now apply H.
Qed.

Lemma uint_chars_printable : forall u,
  Forall (fun c => (33 <= c)%N) (Json.uint_chars u).
Proof. induction u; simpl; constructor; (lia || assumption). Qed.

Lemma int_repr_printable : forall z,
  Forall (fun c => (33 <= c)%N) (Json.int_repr z).
Proof.
  intros z. unfold Json.int_repr. destruct (Z.to_int z).
  - apply uint_chars_printable.
  - constructor; [lia|apply uint_chars_printable].
Qed.

Lemma hex_digit_printable : forall d, (33 <= Json.hex_digit d)%N.
Proof. intros d. unfold Json.hex_digit. destruct (d <? 10)%N; lia. Qed.

Lemma u_escape_printable : forall n,
  Forall (fun c => (33 <= c)%N) (Json.u_escape n).
Proof.
  intros n. unfold Json.u_escape.
  repeat constructor; try lia; apply hex_digit_printable.
Qed.

Lemma escape_char_printable : forall c,
  c <> 32%N -> Forall (fun x => (33 <= x)%N) (Json.escape_char false c).
Proof.
  intros c Hc. unfold Json.escape_char.
  repeat match goal with
         | |- context [if ?b then _ else _] =>
             let E := fresh "E" in destruct b eqn:E
         end;
    try (repeat constructor; lia);
    try apply u_escape_printable.
  cbn [andb] in *. constructor; [|constructor].
  apply N.ltb_ge in E6. lia.
Qed.

Lemma encode_string_printable : forall s,
  forallb (fun c => negb (c =? 32)%N) s = true ->
  Forall (fun x => (33 <= x)%N) (Json.encode_string false s).
Proof.
  intros s H. unfold Json.encode_string. constructor; [lia|].
  apply Forall_app. split; [|repeat constructor; lia].
  rewrite forallb_forall in H. apply Forall_flat_map, Forall_forall.
  intros c Hin. apply escape_char_printable.
  specialize (H c Hin). apply negb_true_iff, N.eqb_neq in H. exact H.
Qed.

Lemma join_forall : forall (P : N -> Prop) sep parts,
  Forall P sep -> Forall (Forall P) parts -> Forall P (Json.join sep parts).
Proof.
  intros P sep parts Hsep H. induction H as [|p parts Hp _ IH].
  - constructor.
  - cbn [Json.join]. destruct parts as [|q parts]; [exact Hp|].
    apply Forall_app. split; [exact Hp|].
    apply Forall_app. split; [exact Hsep|exact IH].
Qed.

Lemma dumps_compact_printable : forall v,
  no_blank v = true ->
  Forall (fun c => (33 <= c)%N) (Json.dumps false (lit ",") (lit ":") v).
Proof.
  induction v as [ |b|z|r|s|l IH|d IH] using json_induction; intros H.
  - now apply printable_check.
  - destruct b; now apply printable_check.
  - apply int_repr_printable.
  - apply printable_check. exact H.
  - now apply encode_string_printable.
  - cbn [Json.dumps no_blank] in *. constructor; [lia|].
    apply Forall_app. split; [|now apply printable_check].
    apply join_forall; [now apply printable_check|].
    rewrite forallb_forall in H. rewrite Forall_forall in IH.
    apply Forall_map, Forall_forall. intros x Hx. apply IH; auto.
  - cbn [Json.dumps no_blank] in *. constructor; [lia|].
    apply Forall_app. split; [|now apply printable_check].
    apply join_forall; [now apply printable_check|].
    rewrite forallb_forall in H. rewrite Forall_forall in IH.
    apply Forall_map, Forall_forall. intros kv Hkv.
    specialize (H kv Hkv). apply andb_prop in H. destruct H as [Hk Hx].
    apply Forall_app. split; [now apply encode_string_printable|].
    apply Forall_app. split; [now apply printable_check|].
    apply IH; auto.
Qed.

(** [rsa_encrypt] always returns, and the length of what it returns is fixed
    by the length of the plaintext. *)
Lemma rsa_encrypt_total : forall rnd plaintext,
  exists ciphertext,
    rsa_encrypt rnd plaintext = Ok ciphertext
    /\ length ciphertext = 128 * ceil_div (length plaintext) 117.
Proof.
  intros rnd plaintext.
  set (n := ceil_div (length plaintext) 117).
  destruct (rsa_encrypt_loop xbloom_public_key xbloom_key_len xbloom_key_top
              rnd plaintext (seq 0 n) [] 0) as (cts & cur' & Hrun & Hrel & Hlen).
  exists (concat cts). split.
  - unfold rsa_encrypt. rewrite load_rsa_public_key_ok. cbn [bind].
    unfold for_range. fold n.
    etransitivity; [apply f_equal2; [exact Hrun|reflexivity]|]. reflexivity.
  - etransitivity; [apply (length_concat_const byte 128 cts Hlen)|].
    apply Forall2_length in Hrel. rewrite length_map, length_seq in Hrel.
    f_equal. symmetry. exact Hrel.
Qed.

(** C5: encrypt_form serializes the mapping with the compact separators,
    which add no whitespace (a mapping without blanks in its strings gives
    text without any whitespace), encodes the text as UTF-8, encrypts the
    octets in blocks, and returns the base64 encoding of the ciphertext as a
    string of ASCII characters, four for every three octets; posted as an
    encrypted body, that string goes on the wire octet for octet. *)
Theorem encrypt_form_pipeline : forall rnd form json_bytes,
  UTF8.encode (Json.dumps false (lit ",") (lit ":") form) = Ok json_bytes ->
  exists ciphertext,
    rsa_encrypt rnd json_bytes = Ok ciphertext
    /\ length ciphertext = 128 * ceil_div (length json_bytes) 117
    /\ encrypt_form rnd form
       = Ok (map Byte.to_N (Base64.b64encode ciphertext))
    /\ Forall (fun c => (c < 128)%N)
         (map Byte.to_N (Base64.b64encode ciphertext))
    /\ length (map Byte.to_N (Base64.b64encode ciphertext))
       = 4 * ceil_div (length ciphertext) 3
    /\ (no_blank form = true ->
        Forall (fun c => Json.is_ws c = false)
          (Json.dumps false (lit ",") (lit ":") form))
    /\ (forall endpoint, exists req,
          _post_request endpoint
            (JStr (map Byte.to_N (Base64.b64encode ciphertext))) true = Ok req
          /\ req_data req = Octets (Base64.b64encode ciphertext)).
Proof.
  intros rnd form json_bytes Henc.
  destruct (rsa_encrypt_total rnd json_bytes) as (ct & Hct & Hlen).
  exists ct. split; [exact Hct|]. split; [exact Hlen|].
  destruct (base64_text_roundtrip ct) as [Hdec Hutf].
  split; [|split; [|split; [|split]]].
  - unfold encrypt_form. rewrite Henc. cbn [bind]. rewrite Hct. cbn [bind].
    exact Hdec.
  - apply Forall_map. apply b64encode_ascii.
  - rewrite length_map. apply b64encode_length.
  - intros Hb. pose proof (dumps_compact_printable form Hb) as Hp.
    rewrite Forall_forall in *. intros c Hc.
    apply printable_not_ws. now apply Hp.
  - intros endpoint. unfold _post_request. rewrite Hutf. cbn [bind].
    eexists. split; reflexivity.
Qed.

Lemma encrypt_form_pipeline_witness :
  UTF8.encode (Json.dumps false (lit ",") (lit ":") sample_form)
  = Ok sample_form_bytes
  /\ exists ciphertext,
       rsa_encrypt tape_a sample_form_bytes = Ok ciphertext
       /\ length ciphertext = 128 * ceil_div (length sample_form_bytes) 117
       /\ encrypt_form tape_a sample_form
          = Ok (map Byte.to_N (Base64.b64encode ciphertext))
       /\ Forall (fun c => (c < 128)%N)
            (map Byte.to_N (Base64.b64encode ciphertext))
       /\ length (map Byte.to_N (Base64.b64encode ciphertext))
          = 4 * ceil_div (length ciphertext) 3
       /\ (no_blank sample_form = true ->
           Forall (fun c => Json.is_ws c = false)
             (Json.dumps false (lit ",") (lit ":") sample_form))
       /\ (forall endpoint, exists req,
             _post_request endpoint
               (JStr (map Byte.to_N (Base64.b64encode ciphertext))) true
             = Ok req
             /\ req_data req = Octets (Base64.b64encode ciphertext)).
Proof.
  split; [reflexivity|].
  apply (encrypt_form_pipeline tape_a sample_form sample_form_bytes).
  reflexivity.
Defined.

(** ** UTF-8: decoding what was encoded *)

Ltac nlia := zify; Z.to_euclidean_division_equations; lia.

Lemma to_N_byte_of_N : forall n, (n < 256)%N -> Byte.to_N (byte_of_N n) = n.
Proof.
  intros n H. unfold byte_of_N. rewrite N.mod_small by exact H.
  destruct (Byte.of_N n) as [b|] eqn:E.
  - now apply Byte.to_of_N.
  - apply Byte.of_N_None_iff in E. lia.
Qed.

Lemma decode_go_skip : forall replace p rest,
  UTF8.decode_go replace (length p) (p ++ rest) = UTF8.decode_go replace 0 rest.
Proof.
  intros replace p rest. induction p as [|x p IH]; [reflexivity|exact IH].
Qed.

Lemma Ok_inj : forall (A : Type) (a b : A), Ok a = Ok b -> a = b.
Proof. intros A a b H. now injection H. Qed.

Lemma encode_char_decode_step : forall c b rest,
  UTF8.encode_char c = Ok b ->
  exists x b', b = x :: b'
               /\ UTF8.decode_step (b ++ rest) = UTF8.Char c (S (length b')).
Proof.
  intros c b rest H. unfold UTF8.encode_char in H.
  destruct (N.ltb_spec c 128) as [H1|H1].
  { apply Ok_inj in H; subst b. eexists _, _. split; [reflexivity|].
    unfold UTF8.decode_step. cbn [app map].
    rewrite to_N_byte_of_N by lia.
    destruct (N.ltb_spec c 128); [reflexivity|lia]. }
  destruct (N.ltb_spec c 2048) as [H2|H2].
  { apply Ok_inj in H; subst b. eexists _, _. split; [reflexivity|].
    unfold UTF8.decode_step, UTF8.is_cont. cbn [app map length].
    rewrite !to_N_byte_of_N by nlia.
    repeat match goal with
           | |- context [(?a <? ?b)%N] => destruct (N.ltb_spec a b); try nlia
           | |- context [(?a <=? ?b)%N] => destruct (N.leb_spec a b); try nlia
           end.
    cbn [andb]. f_equal. nlia. }
  destruct (N.ltb_spec c 65536) as [H3|H3].
  { destruct ((55296 <=? c) && (c <=? 57343))%N eqn:Es; [discriminate H|].
    apply Ok_inj in H; subst b. eexists _, _. split; [reflexivity|].
    assert (Hs : (c < 55296 \/ 57343 < c)%N).
    { apply andb_false_iff in Es. destruct Es as [E|E];
        apply N.leb_gt in E; lia. }
    unfold UTF8.decode_step, UTF8.is_cont. cbn [app map length].
    rewrite !to_N_byte_of_N by nlia.
    repeat match goal with
           | |- context [(?a <? ?b)%N] => destruct (N.ltb_spec a b); try nlia
           | |- context [(?a <=? ?b)%N] => destruct (N.leb_spec a b); try nlia
           | |- context [(?a =? ?b)%N] => destruct (N.eqb_spec a b); try nlia
           end; cbn [andb orb negb]; try (f_equal; nlia). }
  destruct (N.ltb_spec c 1114112) as [H4|H4]; [|discriminate H].
  apply Ok_inj in H; subst b. eexists _, _. split; [reflexivity|].
  unfold UTF8.decode_step, UTF8.is_cont. cbn [app map length].
  rewrite !to_N_byte_of_N by nlia.
  repeat match goal with
         | |- context [(?a <? ?b)%N] => destruct (N.ltb_spec a b); try nlia
         | |- context [(?a <=? ?b)%N] => destruct (N.leb_spec a b); try nlia
         | |- context [(?a =? ?b)%N] => destruct (N.eqb_spec a b); try nlia
         end; cbn [andb orb negb]; try (f_equal; nlia).
Qed.

Lemma utf8_decode_go_encode : forall replace s b,
  UTF8.encode s = Ok b -> UTF8.decode_go replace 0 b = Ok s.
Proof.
  intros replace.
  induction s as [|c s IH]; intros b H; cbn [UTF8.encode] in H.
  - now injection H as <-.
  - destruct (UTF8.encode_char c) as [bc|e] eqn:Ec; [|discriminate H].
    cbn [bind] in H.
    destruct (UTF8.encode s) as [bs|e] eqn:Es; [|discriminate H].
    cbn [bind] in H. injection H as <-.
    destruct (encode_char_decode_step c bc bs Ec) as (x & b' & -> & Hstep).
    cbn [app UTF8.decode_go]. cbn [app] in Hstep. rewrite Hstep.
    replace (S (length b') - 1) with (length b') by lia.
    rewrite decode_go_skip, (IH bs eq_refl). reflexivity.
Qed.

Lemma utf8_decode_encode : forall s b,
  UTF8.encode s = Ok b -> UTF8.decode b = Ok s.
Proof. intros s b H. now apply utf8_decode_go_encode. Qed.

(** ** JSON: reading back what was written *)

(** *** Strings *)

Lemma hex_value_hex_digit : forall d,
  (d < 16)%N -> hex_value (Json.hex_digit d) = Some d.
Proof.
  intros d H. unfold Json.hex_digit, hex_value.
  destruct (N.ltb_spec d 10) as [Hd|Hd].
  - replace ((48 <=? 48 + d) && (48 + d <=? 57))%N with true; [f_equal; lia|].
    symmetry. apply andb_true_intro. split; apply N.leb_le; lia.
  - replace ((48 <=? 87 + d) && (87 + d <=? 57))%N with false
      by (symmetry; apply andb_false_intro2, N.leb_gt; lia).
    replace ((65 <=? 87 + d) && (87 + d <=? 70))%N with false
      by (symmetry; apply andb_false_intro2, N.leb_gt; lia).
    replace ((97 <=? 87 + d) && (87 + d <=? 102))%N with true; [f_equal; lia|].
    symmetry. apply andb_true_intro. split; apply N.leb_le; lia.
Qed.

Lemma hex4_u_escape : forall n tail,
  (n < 65536)%N ->
  Json.hex4 (Json.hex_digit ((n / 4096) mod 16)
               :: Json.hex_digit ((n / 256) mod 16)
               :: Json.hex_digit ((n / 16) mod 16)
               :: Json.hex_digit (n mod 16) :: tail) = Some (n, tail).
Proof.
  intros n tail H. unfold Json.hex4.
  rewrite !hex_value_hex_digit by (apply N.mod_upper_bound; lia).
  f_equal. f_equal. nlia.
Qed.

Lemma low_escape_u_escape : forall n tail,
  (56320 <= n <= 57343)%N ->
  Json.low_escape (Json.u_escape n ++ tail) = Some (n, tail).
Proof.
  intros n tail H. unfold Json.low_escape, Json.u_escape. cbn [app]. cbv iota.
  rewrite hex4_u_escape by lia.
  replace ((56320 <=? n) && (n <=? 57343))%N with true; [reflexivity|].
  symmetry. apply andb_true_intro. split; apply N.leb_le; lia.
Qed.

Lemma scanstring_u_escape : forall f n tail,
  (n < 65536)%N ->
  Json.scanstring (S f) (Json.u_escape n ++ tail)
  = match (if ((55296 <=? n) && (n <=? 56319))%N
           then Json.low_escape tail else None) with
    | Some (u2, r3) =>
        '(t, rest) <- Json.scanstring f r3 ;;
        Ok ((65536 + (n - 55296) * 1024 + (u2 - 56320))%N :: t, rest)
    | None => '(t, rest) <- Json.scanstring f tail ;; Ok (n :: t, rest)
    end.
Proof.
  intros f n tail H. unfold Json.u_escape. cbn [app Json.scanstring]. change (92 =? 34)%N with false.
  change (92 =? 92)%N with true. change (117 =? 117)%N with true. cbv iota.
  now rewrite hex4_u_escape.
Qed.

(** One character of a string literal is read back as it was written. *)
Lemma scanstring_escape_char : forall ensure_ascii c f tail,
  (ensure_ascii = true -> scalar c = true) ->
  Json.scanstring (S f) (Json.escape_char ensure_ascii c ++ tail)
  = '(t, rest) <- Json.scanstring f tail ;; Ok (c :: t, rest).
Proof.
  intros ea c f tail Hc. unfold Json.escape_char.
  destruct (N.eqb_spec c 34) as [->|N34]; [reflexivity|].
  destruct (N.eqb_spec c 92) as [->|N92]; [reflexivity|].
  destruct (N.eqb_spec c 10) as [->|N10]; [reflexivity|].
  destruct (N.eqb_spec c 13) as [->|N13]; [reflexivity|].
  destruct (N.eqb_spec c 9) as [->|N9]; [reflexivity|].
  destruct (N.eqb_spec c 8) as [->|N8]; [reflexivity|].
  destruct (N.eqb_spec c 12) as [->|N12]; [reflexivity|].
  destruct (N.ltb_spec c 32) as [L32|L32].
  { rewrite scanstring_u_escape by lia.
    replace ((55296 <=? c) && (c <=? 56319))%N with false; [reflexivity|].
    symmetry. apply andb_false_intro1, N.leb_gt. lia. }
  destruct (ea && (126 <? c)%N) eqn:E.
  - apply andb_prop in E. destruct E as [-> E]. apply N.ltb_lt in E.
    specialize (Hc eq_refl). unfold scalar in Hc.
    destruct (N.ltb_spec c 65536) as [L|L].
    + rewrite scanstring_u_escape by lia.
      replace ((55296 <=? c) && (c <=? 56319))%N with false; [reflexivity|].
      symmetry. apply andb_false_iff.
      apply orb_prop in Hc. destruct Hc as [H|H].
      * left. apply N.ltb_lt in H. apply N.leb_gt. lia.
      * right. apply andb_prop in H. destruct H as [H _].
        apply N.ltb_lt in H. apply N.leb_gt. lia.
    + assert (Hmax : (c < 1114112)%N).
      { apply orb_prop in Hc. destruct Hc as [H|H].
        - apply N.ltb_lt in H. lia.
        - apply andb_prop in H. destruct H as [_ H]. now apply N.ltb_lt in H. }
      cbv zeta. rewrite <- app_assoc.
      rewrite scanstring_u_escape by nlia.
      replace ((55296 <=? 55296 + ((c - 65536) / 1024) mod 1024)
               && (55296 + ((c - 65536) / 1024) mod 1024 <=? 56319))%N
        with true
        by (symmetry; apply andb_true_intro; split; apply N.leb_le; nlia).
      rewrite low_escape_u_escape by nlia.
      replace (65536 + (55296 + ((c - 65536) / 1024) mod 1024 - 55296) * 1024
               + (56320 + (c - 65536) mod 1024 - 56320))%N with c by nlia.
      reflexivity.
  - cbn [app Json.scanstring].
    destruct (N.eqb_spec c 34); [contradiction|].
    destruct (N.eqb_spec c 92); [contradiction|].
    destruct (N.ltb_spec c 32); [lia|]. reflexivity.
Qed.

Lemma scanstring_flat_map : forall ensure_ascii s fuel rest,
  plain_str ensure_ascii s = true ->
  length s < fuel ->
  Json.scanstring fuel
    (flat_map (Json.escape_char ensure_ascii) s ++ 34%N :: rest)
  = Ok (s, rest).
Proof.
  intros ea s. induction s as [|c s IH]; intros fuel rest Hs Hf.
  - destruct fuel as [|f]; [simpl in Hf; lia|]. reflexivity.
  - destruct fuel as [|f]; [simpl in Hf; lia|].
    cbn [flat_map]. rewrite <- app_assoc.
    unfold plain_str in Hs.
    rewrite scanstring_escape_char.
    + rewrite IH; [reflexivity| |simpl in Hf; lia].
      unfold plain_str. destruct ea; [|reflexivity].
      cbn [negb orb forallb] in *. apply andb_prop in Hs. apply Hs.
    + intros ->. cbn [negb orb forallb] in Hs. apply andb_prop in Hs. apply Hs.
Qed.

Lemma escape_char_nonempty : forall ensure_ascii c,
  1 <= length (Json.escape_char ensure_ascii c).
Proof.
  intros ea c. unfold Json.escape_char.
  repeat match goal with
         | |- context [if ?b then _ else _] => destruct b
         end; try rewrite length_app; cbn [length Json.u_escape]; lia.
Qed.

Lemma flat_map_escape_length : forall ensure_ascii s,
  length s <= length (flat_map (Json.escape_char ensure_ascii) s).
Proof.
  intros ea s. induction s as [|c s IH]; [reflexivity|].
  cbn [flat_map length]. rewrite length_app.
  pose proof (escape_char_nonempty ea c). lia.
Qed.

(** A string literal followed by anything is read back as the string. *)
Lemma scanstring_encode_string : forall ensure_ascii s rest,
  plain_str ensure_ascii s = true ->
  Json.scanstring
    (length (flat_map (Json.escape_char ensure_ascii) s ++ 34%N :: rest))
    (flat_map (Json.escape_char ensure_ascii) s ++ 34%N :: rest)
  = Ok (s, rest).
Proof.
  intros ea s rest Hs. apply scanstring_flat_map; [exact Hs|].
  rewrite length_app. cbn [length].
  pose proof (flat_map_escape_length ea s). lia.
Qed.

(** *** Numbers *)

Lemma scan_number_sign : forall s,
  Json.scan_number s
  = match s with
    | c :: r => if (c =? 45)%N then scan_digits true r else scan_digits false s
    | [] => None
    end.
Proof.
  intros [|c r]; [reflexivity|].
  destruct (N.eqb_spec c 45) as [->|Hc]; [reflexivity|].
  unfold Json.scan_number, scan_digits.
  destruct c as [|p]; [reflexivity|].
  do 6 (destruct p as [p|p|]; try reflexivity). contradiction.
Qed.

Lemma scan_frac_other : forall c r,
  c <> 46%N -> Json.scan_frac (c :: r) = ([], c :: r).
Proof.
  intros c r Hc. unfold Json.scan_frac.
  destruct c as [|p]; [reflexivity|].
  do 6 (destruct p as [p|p|]; try reflexivity). contradiction.
Qed.

Lemma delimited_head : forall t,
  delimited t = true ->
  t = [] \/ exists c r, t = c :: r /\ (c = 44 \/ c = 93 \/ c = 125)%N.
Proof.
  intros [|c r] H; [now left|right]. exists c, r. split; [reflexivity|].
  unfold delimited in H. apply orb_prop in H. destruct H as [H|H].
  - apply orb_prop in H. destruct H as [H|H]; apply N.eqb_eq in H; auto.
  - apply N.eqb_eq in H. auto.
Qed.

Lemma span_digits_delimited : forall t,
  delimited t = true -> Json.span_digits t = ([], t).
Proof.
  intros t H. destruct (delimited_head t H) as [->|(c & r & -> & Hc)];
    [reflexivity|].
  destruct Hc as [->|[->| ->]]; reflexivity.
Qed.

Lemma span_digits_app : forall t s d r,
  delimited t = true ->
  Json.span_digits s = (d, r) -> Json.span_digits (s ++ t) = (d, r ++ t).
Proof.
  intros t s. induction s as [|c s IH]; intros d r Ht H.
  - cbn in H. injection H as <- <-. now apply span_digits_delimited.
  - cbn [app Json.span_digits] in *. destruct (Json.is_digit c).
    + destruct (Json.span_digits s) as [d' r'] eqn:E.
      injection H as <- <-. now rewrite (IH d' r' Ht eq_refl).
    + now injection H as <- <-.
Qed.

Lemma scan_frac_app : forall t s fr r,
  delimited t = true ->
  Json.scan_frac s = (fr, r) -> Json.scan_frac (s ++ t) = (fr, r ++ t).
Proof.
  intros t s fr r Ht H. destruct s as [|c s].
  - cbn in H. injection H as <- <-. cbn [app].
    destruct (delimited_head t Ht) as [->|(c & r & -> & Hc)]; [reflexivity|].
    apply scan_frac_other. lia.
  - destruct (N.eqb_spec c 46) as [->|Hc].
    + cbn [app Json.scan_frac] in *.
      destruct (Json.span_digits s) as [d r'] eqn:E.
      rewrite (span_digits_app t s d r' Ht E).
      destruct d; now injection H as <- <-.
    + rewrite scan_frac_other in H by exact Hc. injection H as <- <-.
      cbn [app]. now apply scan_frac_other.
Qed.

Lemma scan_exp_app : forall t s ex r,
  delimited t = true ->
  Json.scan_exp s = (ex, r) -> Json.scan_exp (s ++ t) = (ex, r ++ t).
Proof.
  intros t s ex r Ht H. destruct s as [|e s].
  - cbn in H. injection H as <- <-. cbn [app].
    destruct (delimited_head t Ht) as [->|(c & r & -> & Hc)]; [reflexivity|].
    destruct Hc as [->|[->| ->]]; reflexivity.
  - cbn [app Json.scan_exp] in *.
    destruct ((e =? 101) || (e =? 69))%N; [|now injection H as <- <-].
    destruct s as [|c s].
    + cbn [app]. cbn in H. injection H as <- <-.
      destruct (delimited_head t Ht) as [->|(c & r & -> & Hc)]; [reflexivity|].
      destruct Hc as [->|[->| ->]]; reflexivity.
    + cbn [app].
      destruct ((c =? 43) || (c =? 45))%N.
      * destruct (Json.span_digits s) as [d r'] eqn:E.
        rewrite (span_digits_app t s d r' Ht E).
        destruct d; now injection H as <- <-.
      * destruct (Json.span_digits (c :: s)) as [d r'] eqn:E.
        change (c :: s ++ t) with ((c :: s) ++ t).
        rewrite (span_digits_app t (c :: s) d r' Ht E).
        destruct d; now injection H as <- <-.
Qed.

Lemma scan_digits_app : forall t neg s v r,
  delimited t = true ->
  scan_digits neg s = Some (v, r) -> scan_digits neg (s ++ t) = Some (v, r ++ t).
Proof.
  intros t neg s v r Ht H. destruct s as [|c s]; [discriminate H|].
  cbn [app scan_digits] in *.
  destruct (Json.is_digit c); [|discriminate H].
  destruct (if (c =? 48)%N then ([], s) else Json.span_digits s)
    as [ds rest] eqn:E.
  assert (E' : (if (c =? 48)%N then ([], s ++ t) else Json.span_digits (s ++ t))
               = (ds, rest ++ t)).
  { destruct (c =? 48)%N.
    - now injection E as <- <-.
    - now apply span_digits_app. }
  rewrite E'.
  destruct (Json.scan_frac rest) as [fr rest1] eqn:Ef.
  rewrite (scan_frac_app t rest fr rest1 Ht Ef).
  destruct (Json.scan_exp rest1) as [ex rest2] eqn:Ee.
  rewrite (scan_exp_app t rest1 ex rest2 Ht Ee).
  destruct fr, ex; now injection H as <- <-.
Qed.

(** A number is read the same whatever delimiter follows it. *)
Lemma scan_number_app : forall t s v r,
  delimited t = true ->
  Json.scan_number s = Some (v, r) ->
  Json.scan_number (s ++ t) = Some (v, r ++ t).
Proof.
  intros t s v r Ht H. rewrite scan_number_sign in *.
  destruct s as [|c s]; [discriminate H|]. cbn [app].
  destruct (c =? 45)%N.
  - now apply scan_digits_app.
  - change (c :: s ++ t) with ((c :: s) ++ t). now apply scan_digits_app.
Qed.

Lemma uint_of_chars_uint_chars : forall u,
  Json.uint_of_chars (Json.uint_chars u) = u.
Proof. induction u; cbn; now f_equal. Qed.

Lemma uint_chars_digits : forall u,
  Json.span_digits (Json.uint_chars u) = (Json.uint_chars u, []).
Proof. induction u; cbn; try reflexivity; now rewrite IHu. Qed.

Lemma to_uint_leading : forall p u, Pos.to_uint p <> Decimal.D0 u.
Proof.
  intros p u H.
  assert (Hn : Decimal.unorm (Pos.to_uint p) = Pos.to_uint p).
  { rewrite <- DecimalPos.Unsigned.to_of, DecimalPos.Unsigned.of_to.
    reflexivity. }
  unfold Decimal.unorm in Hn.
  destruct (Decimal.nzhead (Pos.to_uint p)) eqn:E;
    try (rewrite H in Hn; discriminate Hn).
  - apply (DecimalPos.Unsigned.to_uint_nonzero p). now symmetry.
  - rewrite <- Hn in H. injection H as ->.
    now apply (DecimalFacts.nzhead_nonzero (Pos.to_uint p) u).
Qed.

Lemma scan_digits_uint : forall neg u,
  u <> Decimal.Nil -> (forall u', u <> Decimal.D0 u') ->
  scan_digits neg (Json.uint_chars u)
  = Some (JInt (Json.int_of_text neg (Json.uint_chars u)), []).
Proof.
  intros neg u Hnil Hzero.
  destruct u as [|u|u|u|u|u|u|u|u|u|u];
    try contradiction; try (exfalso; now apply (Hzero u));
    cbn [Json.uint_chars scan_digits]; cbn [Json.is_digit N.leb N.compare andb];
    cbn; rewrite uint_chars_digits; reflexivity.
Qed.

Lemma scan_number_int_repr : forall z,
  Json.scan_number (Json.int_repr z) = Some (JInt z, []).
Proof.
  intros z. rewrite scan_number_sign. unfold Json.int_repr.
  destruct z as [|p|p]; [reflexivity| |]; cbn [Z.to_int];
    pose proof (DecimalPos.Unsigned.to_uint_nonnil p) as Hnil;
    pose proof (to_uint_leading p) as Hz.
  - assert (Hs : scan_digits false (Json.uint_chars (Pos.to_uint p))
                 = Some (JInt (Z.pos p), [])).
    { rewrite scan_digits_uint by assumption.
      unfold Json.int_of_text. rewrite uint_of_chars_uint_chars.
      do 2 f_equal. f_equal. exact (DecimalZ.of_to (Z.pos p)). }
    destruct (Pos.to_uint p) as [|u|u|u|u|u|u|u|u|u|u];
      try contradiction; try (exfalso; now apply (Hz u)); exact Hs.
  - assert (Hs : scan_digits true (Json.uint_chars (Pos.to_uint p))
                 = Some (JInt (Z.neg p), [])).
    { rewrite scan_digits_uint by assumption.
      unfold Json.int_of_text. rewrite uint_of_chars_uint_chars.
      do 2 f_equal. f_equal. exact (DecimalZ.of_to (Z.neg p)). }
    exact Hs.
Qed.

(** *** Values *)

Lemma str_eqb_eq : forall a b, str_eqb a b = true -> a = b.
Proof.
  intros a b H. unfold str_eqb in H.
  now destruct (list_eq_dec N.eq_dec a b).
Qed.

Lemma str_eqb_refl : forall a, str_eqb a a = true.
Proof.
  intros a. unfold str_eqb. now destruct (list_eq_dec N.eq_dec a a).
Qed.

Lemma skip_ws_cons : forall c r,
  Json.is_ws c = false -> Json.skip_ws (c :: r) = c :: r.
Proof. intros c r H. cbn [Json.skip_ws]. now rewrite H. Qed.

Lemma skip_ws_app : forall w s,
  forallb Json.is_ws w = true -> Json.skip_ws (w ++ s) = Json.skip_ws s.
Proof.
  induction w as [|c w IH]; intros s H; [reflexivity|].
  cbn [forallb] in H. apply andb_prop in H. destruct H as [Hc Hw].
  cbn [app Json.skip_ws]. rewrite Hc. now apply IH.
Qed.

(** The first character of a number. *)
Lemma scan_number_head : forall s x,
  Json.scan_number s = Some x ->
  exists c tl, s = c :: tl /\ (c = 45%N \/ Json.is_digit c = true).
Proof.
  intros s x H. rewrite scan_number_sign in H.
  destruct s as [|c tl]; [discriminate H|]. exists c, tl. split; [reflexivity|].
  destruct (N.eqb_spec c 45) as [->|Hc]; [now left|right].
  cbn [scan_digits] in H. now destruct (Json.is_digit c).
Qed.

Lemma number_head_not_ws : forall c,
  c = 45%N \/ Json.is_digit c = true ->
  Json.is_ws c = false /\ c <> 93%N /\ c <> 34%N /\ c <> 123%N /\ c <> 91%N
  /\ c <> 110%N /\ c <> 116%N /\ c <> 102%N.
Proof.
  intros c [->|H].
  - repeat split; (reflexivity || discriminate).
  - unfold Json.is_digit in H. apply andb_prop in H. destruct H as [H1 H2].
    apply N.leb_le in H1, H2. unfold Json.is_ws.
    repeat split; try lia.
    repeat (apply orb_false_intro); apply N.eqb_neq; lia.
Qed.

Lemma scan_once_number : forall f text v rest,
  Json.scan_number text = Some (v, []) ->
  delimited rest = true ->
  Json.scan_once (S f) (text ++ rest) = Ok (v, rest).
Proof.
  intros f text v rest H Hr.
  destruct (scan_number_head text _ H) as (c & tl & -> & Hc).
  apply number_head_not_ws in Hc.
  destruct Hc as (_ & _ & H34 & H123 & H91 & H110 & H116 & H102).
  pose proof (scan_number_app rest (c :: tl) v [] Hr H) as Happ.
  cbn [app] in Happ. cbn [app Json.scan_once].
  apply N.eqb_neq in H34, H123, H91. rewrite H34, H123, H91.
  change (lit "null") with [110; 117; 108; 108]%N.
  change (lit "true") with [116; 114; 117; 101]%N.
  change (lit "false") with [102; 97; 108; 115; 101]%N.
  cbn [starts_with].
  replace (110 =? c)%N with false by (symmetry; apply N.eqb_neq; lia).
  replace (116 =? c)%N with false by (symmetry; apply N.eqb_neq; lia).
  replace (102 =? c)%N with false by (symmetry; apply N.eqb_neq; lia).
  cbn [andb]. now rewrite Happ.
Qed.

Lemma float_text_literal : forall r,
  float_literal r = true ->
  Json.float_text r = r /\ Json.scan_number r = Some (JFloat r, []).
Proof.
  intros r H. unfold float_literal in H.
  destruct (Json.scan_number r) as [[v rest]|] eqn:E; [|discriminate H].
  destruct v; try discriminate H. destruct rest; [|discriminate H].
  apply str_eqb_eq in H. subst r0. split; [|reflexivity].
  unfold Json.float_text.
  destruct (str_eqb r (lit "nan")) eqn:E1;
    [apply str_eqb_eq in E1; subst r; discriminate E|].
  destruct (str_eqb r (lit "inf")) eqn:E2;
    [apply str_eqb_eq in E2; subst r; discriminate E|].
  destruct (str_eqb r (lit "-inf")) eqn:E3;
    [apply str_eqb_eq in E3; subst r; discriminate E|].
  reflexivity.
Qed.

Lemma float_repr_cases : forall r,
  float_repr r = true ->
  r = lit "nan" \/ r = lit "inf" \/ r = lit "-inf" \/ float_literal r = true.
Proof.
  intros r H. unfold float_repr in H.
  repeat (apply orb_prop in H; destruct H as [H|H]);
    try (apply str_eqb_eq in H); auto.
Qed.

Lemma scan_once_float : forall f r rest,
  float_repr r = true ->
  delimited rest = true ->
  Json.scan_once (S f) (Json.float_text r ++ rest) = Ok (JFloat r, rest).
Proof.
  intros f r rest H Hr.
  destruct (float_repr_cases r H) as [->|[->|[->|Hl]]]; try reflexivity.
  destruct (float_text_literal r Hl) as [-> Hs].
  now apply scan_once_number.
Qed.

Lemma scan_once_list : forall f c tl,
  Json.is_ws c = false -> c <> 93%N ->
  Json.scan_once (S f) (91%N :: c :: tl)
  = '(vs, rest) <- Json.array_items (Json.scan_once f) f (c :: tl) ;;
    Ok (JList vs, rest).
Proof.
  intros f c tl Hw Hc. cbn [Json.scan_once].
  change (91 =? 34)%N with false. change (91 =? 123)%N with false.
  change (91 =? 91)%N with true. cbv iota.
  rewrite (skip_ws_cons c tl Hw).
  destruct c as [|p]; [reflexivity|].
  do 7 (destruct p as [p|p|]; try reflexivity). contradiction.
Qed.

(** The text of a value starts with a character that is neither blank nor a
    closing bracket. *)
Lemma dumps_head : forall ensure_ascii isep ksep v,
  plain ensure_ascii v = true ->
  exists c tl, Json.dumps ensure_ascii isep ksep v = c :: tl
               /\ Json.is_ws c = false /\ c <> 93%N.
Proof.
  intros ea isep ksep v H. destruct v as [ |b|z|r|s|l|d]; cbn [Json.dumps].
  - eexists _, _. split; [reflexivity|]. split; [reflexivity|discriminate].
  - destruct b; eexists _, _; (split; [reflexivity|]);
      (split; [reflexivity|discriminate]).
  - destruct (scan_number_head _ _ (scan_number_int_repr z))
      as (c & tl & -> & Hc).
    exists c, tl. split; [reflexivity|].
    apply number_head_not_ws in Hc. tauto.
  - cbn [plain] in H.
    destruct (float_repr_cases r H) as [->|[->|[->|Hl]]];
      try (eexists _, _; (split; [reflexivity|]);
           (split; [reflexivity|discriminate])).
    destruct (float_text_literal r Hl) as [-> Hs].
    destruct (scan_number_head _ _ Hs) as (c & tl & -> & Hc).
    exists c, tl. split; [reflexivity|].
    apply number_head_not_ws in Hc. tauto.
  - eexists _, _. split; [reflexivity|]. split; [reflexivity|discriminate].
  - eexists _, _. split; [reflexivity|]. split; [reflexivity|discriminate].
  - eexists _, _. split; [reflexivity|]. split; [reflexivity|discriminate].
Qed.

Lemma join_cons_cons : forall (sep p q : str) (parts : list str),
  Json.join sep (p :: q :: parts) = p ++ sep ++ Json.join sep (q :: parts).
Proof. reflexivity. Qed.

Lemma join_length_in : forall (sep : str) (parts : list str) (p : str),
  In p parts -> length p <= length (Json.join sep parts).
Proof.
  intros sep parts. induction parts as [|q parts IH]; intros p Hin;
    [contradiction|].
  destruct parts as [|q' parts].
  - destruct Hin as [->|[]]. reflexivity.
  - rewrite join_cons_cons, !length_app.
    destruct Hin as [->|Hin]; [apply Nat.le_add_r|].
    specialize (IH p Hin). eapply Nat.le_trans; [exact IH|].
    rewrite Nat.add_assoc. apply Nat.le_add_l.
Qed.

Lemma join_length_count : forall (sep : str) (parts : list str),
  Forall (fun p => 1 <= length p) parts ->
  length parts <= length (Json.join sep parts).
Proof.
  intros sep parts H. induction H as [|q parts Hq _ IH]; [reflexivity|].
  destruct parts as [|q' parts].
  - cbn [Json.join length]. lia.
  - rewrite join_cons_cons, !length_app. cbn [length] in *.
    apply le_n_S in IH. eapply Nat.le_trans; [exact IH|].
    rewrite Nat.add_assoc.
    change (S ?x) with (1 + x). apply Nat.add_le_mono; [lia|apply Nat.le_refl].
Qed.

(** *** Dictionaries with distinct keys *)

Lemma dict_set_fresh : forall d k v,
  dict_get d k = None -> dict_set d k v = d ++ [(k, v)].
Proof.
  induction d as [|[k' v'] d IH]; intros k v H; [reflexivity|].
  cbn [dict_get dict_set app] in *.
  destruct (str_eqb k' k); [discriminate H|]. now rewrite IH.
Qed.

Lemma dict_get_app_fresh : forall d k k' v,
  dict_get d k' = None -> str_eqb k k' = false ->
  dict_get (d ++ [(k, v)]) k' = None.
Proof.
  induction d as [|[k0 v0] d IH]; intros k k' v H Hk; cbn [app dict_get] in *.
  - now rewrite Hk.
  - destruct (str_eqb k0 k'); [discriminate H|]. now apply IH.
Qed.

Lemma str_eqb_sym : forall a b, str_eqb a b = str_eqb b a.
Proof.
  intros a b. unfold str_eqb.
  destruct (list_eq_dec N.eq_dec a b), (list_eq_dec N.eq_dec b a);
    congruence.
Qed.

Lemma dict_update_distinct : forall items acc,
  distinct_keys items = true ->
  (forall k v, In (k, v) items -> dict_get acc k = None) ->
  dict_update acc items = acc ++ items.
Proof.
  unfold dict_update.
  induction items as [|[k v] items IH]; intros acc Hd Hacc.
  - cbn. now rewrite app_nil_r.
  - cbn [fold_left fst snd]. cbn [distinct_keys] in Hd.
    destruct (dict_get items k) eqn:Ek; [discriminate Hd|].
    rewrite dict_set_fresh by (apply (Hacc k v); now left).
    rewrite IH; [now rewrite <- app_assoc|exact Hd|].
    intros k' v' Hin. apply dict_get_app_fresh.
    + apply (Hacc k' v'). now right.
    + destruct (str_eqb k k') eqn:E; [|reflexivity].
      apply str_eqb_eq in E. subst k'.
      clear - Ek Hin. induction items as [|[k0 v0] items IH];
        [contradiction|].
      cbn [dict_get] in Ek. destruct (str_eqb k0 k) eqn:E0; [discriminate Ek|].
      destruct Hin as [Heq|Hin]; [|now apply IH].
      injection Heq as -> _. now rewrite str_eqb_refl in E0.
Qed.

Lemma dict_of_items_distinct : forall items,
  distinct_keys items = true -> dict_of_items items = items.
Proof.
  intros items H. unfold dict_of_items.
  now rewrite dict_update_distinct.
Qed.

(** *** Arrays, objects and whole texts *)

Section RoundTrip.
Variable ensure_ascii : bool.
Variables iw kw : str.
Hypothesis iw_blank : forallb Json.is_ws iw = true.
Hypothesis kw_blank : forallb Json.is_ws kw = true.

Local Abbreviation isep := (44%N :: iw).
Local Abbreviation ksep := (58%N :: kw).
Local Abbreviation D := (Json.dumps ensure_ascii isep ksep).
Local Abbreviation F := (flat_map (Json.escape_char ensure_ascii)).
Local Abbreviation item :=
  (fun kv : str * json =>
     Json.encode_string ensure_ascii (fst kv) ++ ksep ++ D (snd kv)).

Lemma skip_ws_dumps : forall v rest,
  plain ensure_ascii v = true -> Json.skip_ws (D v ++ rest) = D v ++ rest.
Proof.
  intros v rest H.
  destruct (dumps_head ensure_ascii isep ksep v H) as (c & tl & -> & Hw & _).
  now apply skip_ws_cons.
Qed.

Lemma dumps_nonempty : forall v,
  plain ensure_ascii v = true -> 1 <= length (D v).
Proof.
  intros v H.
  destruct (dumps_head ensure_ascii isep ksep v H) as (c & tl & -> & _).
  cbn [length]. lia.
Qed.

Section Items.
Variable scan : str -> result (json * str).

Local Abbreviation reads := (reads ensure_ascii isep ksep scan).

Lemma array_items_join : forall l v n rest,
  Forall reads (v :: l) ->
  length (v :: l) <= n ->
  Json.array_items scan n (Json.join isep (map D (v :: l)) ++ 93%N :: rest)
  = Ok (v :: l, rest).
Proof.
  induction l as [|v2 l IH]; intros v n rest Hall Hn;
    (destruct n as [|n]; [cbn [length] in Hn; lia|]);
    inversion Hall as [|? ? [Hp Hv] Hrest]; subst.
  - cbn [map Json.join Json.array_items].
    rewrite Hv by reflexivity. reflexivity.
  - cbn [map]. rewrite join_cons_cons. rewrite <- !app_assoc.
    cbn [app Json.array_items].
    rewrite Hv by reflexivity. cbn [bind].
    rewrite (skip_ws_cons 44 _ eq_refl). cbv iota.
    rewrite skip_ws_app by exact iw_blank.
    change (D v2 :: map D l) with (map D (v2 :: l)).
    assert (Hs : Json.skip_ws (Json.join isep (map D (v2 :: l)) ++ 93%N :: rest)
                 = Json.join isep (map D (v2 :: l)) ++ 93%N :: rest).
    { inversion Hrest as [|? ? [Hp2 _] _]; subst.
      destruct l as [|v3 l].
      - cbn [map Json.join]. now apply skip_ws_dumps.
      - cbn [map]. rewrite join_cons_cons, <- app_assoc.
        now apply skip_ws_dumps. }
    rewrite Hs, (IH v2 n rest Hrest); [reflexivity|].
    cbn [length] in *. lia.
Qed.

Lemma object_items_join : forall d k v n rest X,
  plain_str ensure_ascii k = true ->
  Forall (fun kv => plain_str ensure_ascii (fst kv) = true) d ->
  Forall (fun kv => reads (snd kv)) ((k, v) :: d) ->
  length ((k, v) :: d) <= n ->
  Json.join isep (map item ((k, v) :: d)) ++ 125%N :: rest = 34%N :: X ->
  Json.object_items scan n X = Ok ((k, v) :: d, rest).
Proof.
  induction d as [|[k2 v2] d IH]; intros k v n rest X Hk Hks Hall Hn HX;
    (destruct n as [|n]; [cbn [length] in Hn; lia|]);
    inversion Hall as [|? ? [Hp Hv] Hrest]; subst; cbn [fst snd] in *.
  - cbn [map Json.join fst snd] in HX. unfold Json.encode_string in HX.
    rewrite <- !app_assoc in HX. cbn [app] in HX. rewrite <- !app_assoc in HX.
    cbn [app] in HX. injection HX as <-.
    cbn [Json.object_items].
    rewrite scanstring_encode_string by exact Hk. cbn [bind].
    rewrite (skip_ws_cons 58 _ eq_refl). cbv iota.
    rewrite skip_ws_app by exact kw_blank.
    rewrite skip_ws_dumps by exact Hp.
    rewrite Hv by reflexivity. reflexivity.
  - change (map item ((k, v) :: (k2, v2) :: d))
      with (item (k, v) :: map item ((k2, v2) :: d)) in HX.
    remember (map item ((k2, v2) :: d)) as parts eqn:Eparts.
    cbv beta in HX.
    match type of HX with
    | context [Json.join ?s (?p :: parts)] =>
        assert (HJ : Json.join s (p :: parts) = p ++ s ++ Json.join s parts)
          by (rewrite Eparts; reflexivity)
    end.
    rewrite HJ in HX. clear HJ.
    remember (Json.join isep parts) as J eqn:EJ.
    cbv beta in HX. cbn [fst snd] in HX.
    unfold Json.encode_string in HX.
    rewrite <- !app_assoc in HX. cbn [app] in HX. rewrite <- !app_assoc in HX.
    cbn [app] in HX. injection HX as <-.
    cbn [Json.object_items].
    rewrite scanstring_encode_string by exact Hk. cbn [bind].
    rewrite (skip_ws_cons 58 _ eq_refl). cbv iota.
    rewrite skip_ws_app by exact kw_blank.
    rewrite skip_ws_dumps by exact Hp.
    rewrite Hv by reflexivity. cbn [bind].
    rewrite (skip_ws_cons 44 _ eq_refl). cbv iota.
    rewrite skip_ws_app by exact iw_blank.
    inversion Hks as [|? ? Hk2 Hks']; subst parts. cbn [fst] in Hk2.
    assert (Hnext : exists X', J ++ 125%N :: rest = 34%N :: X').
    { rewrite EJ. destruct d as [|kv3 d].
      - cbn [map Json.join fst]. unfold Json.encode_string.
        cbn [app]. eexists. reflexivity.
      - cbn [map]. rewrite join_cons_cons. cbn [fst].
        unfold Json.encode_string at 1. cbn [app]. eexists. reflexivity. }
    destruct Hnext as [X' HX']. rewrite HX'.
    rewrite (skip_ws_cons 34 _ eq_refl). cbv iota.
    rewrite EJ in HX'.
    rewrite (IH k2 v2 n rest X' Hk2 Hks' Hrest); [reflexivity| |exact HX'].
    cbn [length] in *. lia.
Qed.
End Items.

(** The text of a value, followed by a delimiter, is read back as the
    value. *)
Lemma scan_once_dumps : forall v,
  plain ensure_ascii v = true ->
  forall fuel rest,
    length (D v) <= fuel -> delimited rest = true ->
    Json.scan_once fuel (D v ++ rest) = Ok (v, rest).
Proof.
  induction v as [ |b|z|r|s|l IH|d IH] using json_induction;
    intros Hp fuel rest Hf Hr.
  - destruct fuel as [|f]; [cbn in Hf; lia|]. reflexivity.
  - destruct fuel as [|f]; [destruct b; cbn in Hf; lia|].
    destruct b; reflexivity.
  - pose proof (dumps_nonempty (JInt z) eq_refl) as Hne.
    destruct fuel as [|f]; [lia|].
    apply scan_once_number; [apply scan_number_int_repr|exact Hr].
  - pose proof (dumps_nonempty (JFloat r) Hp) as Hne.
    destruct fuel as [|f]; [lia|].
    now apply scan_once_float.
  - destruct fuel as [|f]; [cbn in Hf; lia|].
    cbn [Json.dumps]. unfold Json.encode_string.
    cbn [app Json.scan_once]. change (34 =? 34)%N with true. cbv iota.
    rewrite <- app_assoc. cbn [app].
    now rewrite scanstring_encode_string.
  - cbn [plain] in Hp. cbn [Json.dumps] in *.
    destruct fuel as [|f]; [cbn in Hf; lia|].
    destruct l as [|v l]; [reflexivity|].
    cbn [length] in Hf. rewrite length_app in Hf. cbn [length] in Hf.
    assert (Hall : Forall (reads ensure_ascii isep ksep (Json.scan_once f)) (v :: l)).
    { rewrite Forall_forall in IH. apply Forall_forall. intros x Hx.
      rewrite forallb_forall in Hp. split; [now apply Hp|].
      intros rest' Hr'. apply IH; [exact Hx|now apply Hp| |exact Hr'].
      pose proof (join_length_in isep (map D (v :: l)) (D x)
                    (in_map D _ _ Hx)). lia. }
    assert (Hcount : length (v :: l) <= f).
    { pose proof (join_length_count isep (map D (v :: l))) as Hc.
      rewrite length_map in Hc.
      assert (Hne : Forall (fun p => 1 <= length p) (map D (v :: l))).
      { apply Forall_map. eapply Forall_impl; [|exact Hall].
        intros x [Hx _]. now apply dumps_nonempty. }
      specialize (Hc Hne). lia. }
    pose proof (array_items_join (Json.scan_once f) l v f rest Hall Hcount)
      as Hitems.
    assert (Hhead : exists c tl,
               Json.join isep (map D (v :: l)) ++ 93%N :: rest = c :: tl
               /\ Json.is_ws c = false /\ c <> 93%N).
    { inversion Hall as [|? ? [Hpv _] _]; subst.
      destruct (dumps_head ensure_ascii isep ksep v Hpv)
        as (c & tl & E & Hw & Hc).
      exists c. destruct l as [|v2 l].
      - cbn [map Json.join]. rewrite E. cbn [app]. eauto.
      - cbn [map]. rewrite join_cons_cons, E. cbn [app]. eauto. }
    destruct Hhead as (c & tl & E & Hw & Hc).
    cbn [app]. rewrite <- app_assoc. cbn [app]. rewrite E in *.
    rewrite scan_once_list by assumption. now rewrite Hitems.
  - cbn [plain] in Hp. apply andb_prop in Hp. destruct Hp as [Hp Hd].
    cbn [Json.dumps] in *.
    destruct fuel as [|f]; [cbn in Hf; lia|].
    destruct d as [|[k v] d]; [reflexivity|].
    cbn [length] in Hf. rewrite length_app in Hf. cbn [length] in Hf.
    rewrite forallb_forall in Hp.
    assert (Hkeys : Forall (fun kv => plain_str ensure_ascii (fst kv) = true)
                      ((k, v) :: d)).
    { apply Forall_forall. intros x Hx.
      specialize (Hp x Hx). now apply andb_prop in Hp. }
    assert (Hlen : forall x, In x ((k, v) :: d) -> length (D (snd x)) <= f).
    { intros x Hx.
      pose proof (join_length_in isep (map item ((k, v) :: d)) (item x)
                    (in_map item _ _ Hx)) as Hj.
      cbv beta in Hj. rewrite !length_app in Hj. lia. }
    assert (Hall : Forall (fun kv => reads ensure_ascii isep ksep (Json.scan_once f) (snd kv))
                     ((k, v) :: d)).
    { rewrite Forall_forall in IH. apply Forall_forall. intros x Hx.
      specialize (Hp x Hx). apply andb_prop in Hp. destruct Hp as [_ Hpx].
      split; [exact Hpx|].
      intros rest' Hr'. apply IH; [exact Hx|exact Hpx| |exact Hr'].
      now apply Hlen. }
    assert (Hcount : length ((k, v) :: d) <= f).
    { pose proof (join_length_count isep (map item ((k, v) :: d))) as Hc.
      rewrite length_map in Hc.
      assert (Hne : Forall (fun p => 1 <= length p) (map item ((k, v) :: d))).
      { apply Forall_map. apply Forall_forall. intros x Hx.
        unfold Json.encode_string. cbn [app length]. lia. }
      specialize (Hc Hne). lia. }
    assert (HX : exists X,
               Json.join isep (map item ((k, v) :: d)) ++ 125%N :: rest
               = 34%N :: X).
    { destruct d as [|kv2 d].
      - cbn [map Json.join fst]. unfold Json.encode_string.
        cbn [app]. eexists. reflexivity.
      - cbn [map]. rewrite join_cons_cons. cbn [fst].
        unfold Json.encode_string at 1. cbn [app]. eexists. reflexivity. }
    destruct HX as [X HX].
    inversion Hkeys as [|? ? Hk Hks]; subst. cbn [fst] in Hk.
    pose proof (object_items_join (Json.scan_once f) d k v f rest X
                  Hk Hks Hall Hcount HX) as Hitems.
    cbn [app]. rewrite <- app_assoc.
    change (Json.scan_once (S f)
              (123%N :: (Json.join isep (map item ((k, v) :: d))
                         ++ 125%N :: rest))
            = Ok (JDict ((k, v) :: d), rest)).
    rewrite HX.
    cbn [Json.scan_once]. change (123 =? 34)%N with false.
    change (123 =? 123)%N with true. cbv iota.
    rewrite (skip_ws_cons 34 _ eq_refl). cbv iota.
    rewrite Hitems. cbn [bind].
    now rewrite dict_of_items_distinct.
Qed.

(** [json.loads(json.dumps(v))] is [v]. *)
Lemma loads_dumps : forall v,
  plain ensure_ascii v = true -> Json.loads (D v) = Ok v.
Proof.
  intros v H. unfold Json.loads.
  pose proof (skip_ws_dumps v [] H) as Hs. rewrite app_nil_r in Hs.
  rewrite Hs.
  pose proof (scan_once_dumps v H (S (length (D v))) [] ltac:(lia) eq_refl)
    as Hscan.
  rewrite app_nil_r in Hscan. rewrite Hscan. reflexivity.
Qed.
End RoundTrip.

(** ** The text that [ensure_ascii] gives is printable ASCII *)

Lemma printable_iff : forall c, printable c = true <-> (32 <= c < 127)%N.
Proof.
  intros c. unfold printable. rewrite andb_true_iff, N.leb_le, N.ltb_lt.
  tauto.
Qed.

Lemma span_digits_digits : forall s d rest,
  Json.span_digits s = (d, rest) -> forallb Json.is_digit d = true.
Proof.
  induction s as [|c s IH]; intros d rest H; cbn [Json.span_digits] in H.
  - now injection H as <- <-.
  - destruct (Json.is_digit c) eqn:E.
    + destruct (Json.span_digits s) as [d' rest'] eqn:Es.
      injection H as <- <-. cbn [forallb]. rewrite E. now apply (IH d' rest').
    + now injection H as <- <-.
Qed.

Lemma digit_is_ascii : forall c, Json.is_digit c = true -> printable c = true.
Proof.
  intros c H. unfold Json.is_digit in H. apply andb_prop in H.
  destruct H as [H1 H2]. apply N.leb_le in H1, H2. apply printable_iff. lia.
Qed.

Lemma digits_ascii : forall d,
  forallb Json.is_digit d = true -> forallb printable d = true.
Proof.
  intros d H. rewrite forallb_forall in *. intros c Hc.
  apply digit_is_ascii. now apply H.
Qed.

Lemma scan_frac_ascii : forall s fr rest,
  Json.scan_frac s = (fr, rest) -> forallb printable fr = true.
Proof.
  intros s fr rest H. destruct s as [|c s]; [now injection H as <- <-|].
  destruct (N.eqb_spec c 46) as [->|Hc].
  - cbn [Json.scan_frac] in H.
    destruct (Json.span_digits s) as [d r] eqn:E.
    apply span_digits_digits, digits_ascii in E.
    destruct d; injection H as <- <-; [reflexivity|]. exact E.
  - rewrite scan_frac_other in H by exact Hc. now injection H as <- <-.
Qed.

Lemma scan_exp_ascii : forall s ex rest,
  Json.scan_exp s = (ex, rest) -> forallb printable ex = true.
Proof.
  intros s ex rest H. unfold Json.scan_exp in H.
  destruct s as [|e s]; [now injection H as <- <-|].
  destruct ((e =? 101) || (e =? 69))%N eqn:Ee; [|now injection H as <- <-].
  assert (He : printable e = true).
  { apply printable_iff. apply orb_prop in Ee.
    destruct Ee as [E|E]; apply N.eqb_eq in E; lia. }
  destruct (match s with
            | [] => ([], s)
            | c :: r0 => if ((c =? 43) || (c =? 45))%N then ([c], r0)
                         else ([], s)
            end) as [sign r'] eqn:Es.
  assert (Hs : forallb printable sign = true).
  { destruct s as [|c r0]; [now injection Es as <- <-|].
    destruct ((c =? 43) || (c =? 45))%N eqn:Ec; injection Es as <- <-;
      [|reflexivity].
    cbn [forallb]. rewrite andb_true_r. apply printable_iff.
    apply orb_prop in Ec.
    destruct Ec as [E|E]; apply N.eqb_eq in E; lia. }
  destruct (Json.span_digits r') as [d r] eqn:Ed.
  apply span_digits_digits, digits_ascii in Ed.
  destruct d; injection H as <- <-; [reflexivity|].
  cbn [forallb]. rewrite He. cbn [andb]. rewrite forallb_app, Hs. exact Ed.
Qed.

Lemma scan_digits_ascii : forall neg s r rest,
  scan_digits neg s = Some (JFloat r, rest) ->
  forallb printable r = true.
Proof.
  intros neg s r rest H. unfold scan_digits in H.
  destruct s as [|c s]; [discriminate H|].
  destruct (Json.is_digit c) eqn:Ec; [|discriminate H].
  destruct (if (c =? 48)%N then ([], s) else Json.span_digits s)
    as [ds rest0] eqn:Eds.
  assert (Hds : forallb printable ds = true).
  { destruct (c =? 48)%N; [now injection Eds as <- <-|].
    now apply span_digits_digits, digits_ascii in Eds. }
  destruct (Json.scan_frac rest0) as [fr rest1] eqn:Efr.
  destruct (Json.scan_exp rest1) as [ex rest2] eqn:Eex.
  apply scan_frac_ascii in Efr. apply scan_exp_ascii in Eex.
  assert (G : forallb printable
                ((if neg then [45%N] else []) ++ (c :: ds) ++ fr ++ ex) = true).
  { rewrite !forallb_app. cbn [forallb].
    rewrite (digit_is_ascii c Ec), Hds, Efr, Eex. now destruct neg. }
  destruct fr, ex; try discriminate H; injection H as <- _; exact G.
Qed.

Lemma float_text_ascii : forall r,
  float_repr r = true -> Forall (fun c => printable c = true) (Json.float_text r).
Proof.
  intros r H.
  assert (G : forallb printable (Json.float_text r) = true).
  { destruct (float_repr_cases r H) as [->|[->|[->|Hl]]]; try reflexivity.
    destruct (float_text_literal r Hl) as [-> Hs].
    rewrite scan_number_sign in Hs. destruct r as [|c r]; [discriminate Hs|].
    destruct (N.eqb_spec c 45) as [->|Hc].
    - now apply scan_digits_ascii in Hs.
    - now apply scan_digits_ascii in Hs. }
  rewrite forallb_forall in G. apply Forall_forall. intros c Hc.
  now apply G.
Qed.

Lemma hex_digit_ascii : forall d,
  (d < 16)%N -> printable (Json.hex_digit d) = true.
Proof.
  intros d H. apply printable_iff. unfold Json.hex_digit.
  destruct (d <? 10)%N; lia.
Qed.

Lemma u_escape_ascii : forall n,
  Forall (fun c => printable c = true) (Json.u_escape n).
Proof.
  intros n. unfold Json.u_escape.
  repeat constructor; try apply hex_digit_ascii, N.mod_upper_bound; lia.
Qed.

Lemma escape_char_ascii : forall c,
  Forall (fun c => printable c = true) (Json.escape_char true c).
Proof.
  intros c. unfold Json.escape_char.
  repeat match goal with
         | |- context [if ?b then _ else _] =>
             let E := fresh "E" in destruct b eqn:E
         end;
    try apply u_escape_ascii;
    try (apply Forall_app; split; apply u_escape_ascii);
    try (repeat constructor; fail).
  constructor; [|constructor].
  cbn [andb] in *.
  repeat match goal with
         | H : (_ <? _)%N = false |- _ => apply N.ltb_ge in H
         end.
  apply printable_iff. lia.
Qed.

Lemma encode_string_ascii : forall s,
  Forall (fun c => printable c = true) (Json.encode_string true s).
Proof.
  intros s. unfold Json.encode_string. constructor; [reflexivity|].
  apply Forall_app. split; [|repeat constructor].
  apply Forall_flat_map, Forall_forall. intros c _. apply escape_char_ascii.
Qed.

Lemma uint_chars_ascii : forall u,
  Forall (fun c => printable c = true) (Json.uint_chars u).
Proof.
  induction u; cbn [Json.uint_chars]; constructor;
    (reflexivity || assumption).
Qed.

Lemma int_repr_ascii : forall z,
  Forall (fun c => printable c = true) (Json.int_repr z).
Proof.
  intros z. unfold Json.int_repr. destruct (Z.to_int z).
  - apply uint_chars_ascii.
  - constructor; [reflexivity|apply uint_chars_ascii].
Qed.

Lemma dumps_ascii : forall isep ksep v,
  Forall (fun c => printable c = true) isep ->
  Forall (fun c => printable c = true) ksep ->
  plain true v = true ->
  Forall (fun c => printable c = true) (Json.dumps true isep ksep v).
Proof.
  intros isep ksep v Hi Hk.
  induction v as [ |b|z|r|s|l IH|d IH] using json_induction; intros H;
    cbn [Json.dumps].
  - repeat constructor.
  - destruct b; repeat constructor.
  - apply int_repr_ascii.
  - now apply float_text_ascii.
  - apply encode_string_ascii.
  - constructor; [reflexivity|]. apply Forall_app. split; [|repeat constructor].
    apply join_forall; [exact Hi|]. apply Forall_map.
    cbn [plain] in H. rewrite forallb_forall in H.
    rewrite Forall_forall in IH. apply Forall_forall.
    intros x Hx. apply IH; [exact Hx|now apply H].
  - constructor; [reflexivity|]. apply Forall_app. split; [|repeat constructor].
    apply join_forall; [exact Hi|]. apply Forall_map.
    cbn [plain] in H. apply andb_prop in H. destruct H as [H _].
    rewrite forallb_forall in H.
    rewrite Forall_forall in IH. apply Forall_forall. intros x Hx.
    apply Forall_app. split; [apply encode_string_ascii|].
    apply Forall_app. split; [exact Hk|].
    apply IH; [exact Hx|]. specialize (H x Hx). now apply andb_prop in H.
Qed.

(** ** The credential file: writing and reading back *)

Lemma printable_ascii : forall s,
  Forall (fun c => printable c = true) s -> Forall (fun c => (c < 128)%N) s.
Proof.
  intros s H. eapply Forall_impl; [|exact H].
  intros c Hc. apply printable_iff in Hc. lia.
Qed.

Lemma universal_newlines_printable : forall s,
  Forall (fun c => printable c = true) s -> universal_newlines s = s.
Proof.
  intros s H. induction H as [|c s Hc _ IH]; [reflexivity|].
  cbn [universal_newlines]. apply printable_iff in Hc.
  destruct (N.eqb_spec c 13); [lia|]. now rewrite IH.
Qed.

Lemma credential_record_plain : forall member_id token email,
  plain true token = true -> plain true email = true ->
  plain true (credential_record member_id token email) = true.
Proof.
  intros m tok em Ht He. unfold credential_record. cbn [plain forallb fst snd].
  rewrite Ht, He. reflexivity.
Qed.

Lemma credential_text_printable : forall member_id token email,
  plain true token = true -> plain true email = true ->
  Forall (fun c => printable c = true) (credential_text member_id token email).
Proof.
  intros m tok em Ht He. unfold credential_text.
  apply dumps_ascii; [repeat constructor|repeat constructor|].
  now apply credential_record_plain.
Qed.

(** [save_auth] leaves a file that [load_auth] reads back as the record. *)
Lemma save_auth_then_load : forall member_id token email f,
  plain true token = true -> plain true email = true ->
  save_auth member_id token email f
  = Ok (Present (map byte_of_N (credential_text member_id token email)) 384)
  /\ load_auth
       (Present (map byte_of_N (credential_text member_id token email)) 384)
     = Ok (credential_record member_id token email).
Proof.
  intros m tok em f Ht He.
  pose proof (credential_text_printable m tok em Ht He) as Hp.
  pose proof (utf8_encode_ascii _ (printable_ascii _ Hp)) as Henc.
  split.
  - unfold save_auth, write_text_chmod.
    change (Json.dumps true (lit ", ") (lit ": ")
              (JDict [(lit "member_id", JInt m); (lit "token", tok);
                      (lit "email", em)]))
      with (credential_text m tok em).
    now rewrite Henc.
  - unfold load_auth, read_text. cbn [exists_ negb].
    rewrite (utf8_decode_encode _ _ Henc). cbn [bind].
    rewrite (universal_newlines_printable _ Hp).
    unfold credential_text.
    change (lit ", ") with (44%N :: [32%N]).
    change (lit ": ") with (58%N :: [32%N]).
    rewrite loads_dumps; [reflexivity|reflexivity|reflexivity|].
    now apply credential_record_plain.
Qed.

(** ** Login *)

Lemma py_get_field : forall d k default,
  py_get (JDict d) k default = Ok (field d k default).
Proof.
  intros d k default. unfold py_get, field. now destruct (dict_get d k).
Qed.

(** What [login] does is what [login_finish] does with the answer. *)
Lemma login_unfold : forall B rnd net email password f body resp,
  encrypt_form rnd (login_form email password) = Ok body ->
  _post net (lit "tMemberLogin.thtml") (JStr body) true = Ok resp ->
  login B rnd net email password f = login_finish B email resp f.
Proof.
  intros B rnd net email password f body resp Henc Hpost.
  unfold login. rewrite Henc. cbn [bind]. now rewrite Hpost.
Qed.

(** The body of the sample login request exists and can be sent. *)
Lemma sample_body_ok :
  encrypt_form tape_a (login_form (lit "a@b.c") (lit "pw")) = Ok sample_body
  /\ exists b, UTF8.encode sample_body = Ok b.
Proof.
  assert (He : UTF8.encode
                 (Json.dumps false (lit ",") (lit ":") sample_form)
               = Ok sample_form_bytes) by (vm_compute; reflexivity).
  destruct (rsa_encrypt_total tape_a sample_form_bytes) as (ct & Hct & _).
  destruct (base64_text_roundtrip ct) as [Hd Hu].
  assert (H : encrypt_form tape_a sample_form
              = Ok (map Byte.to_N (Base64.b64encode ct))).
  { unfold encrypt_form. rewrite He. cbn [bind]. rewrite Hct. cbn [bind].
    exact Hd. }
  change (login_form (lit "a@b.c") (lit "pw")) with sample_form.
  unfold sample_body. rewrite H. cbn [unwrap]. split; [reflexivity|]. eauto.
Qed.

(** A server that answers with a fixed text, seen from [_post]. *)
Lemma post_answering : forall text endpoint body b,
  UTF8.encode body = Ok b ->
  _post (answering text) endpoint (JStr body) true
  = (raw <- UTF8.encode (jlit text) ;;
     t <- UTF8.decode raw ;; Json.loads t).
Proof.
  intros text endpoint body b Hb. unfold _post, _post_request.
  rewrite Hb. cbn [bind]. unfold answering.
  now destruct (UTF8.encode (jlit text)).
Qed.

(** The sample login against a server that answers with a fixed text. *)
Lemma sample_login : forall B text resp f,
  (raw <- UTF8.encode (jlit text) ;; t <- UTF8.decode raw ;; Json.loads t)
  = Ok resp ->
  login B tape_a (answering text) (lit "a@b.c") (lit "pw") f
  = login_finish B (lit "a@b.c") resp f.
Proof.
  intros B text resp f H.
  destruct sample_body_ok as [Henc [b Hb]].
  apply (login_unfold _ _ _ _ _ _ sample_body resp Henc).
  now rewrite (post_answering text _ _ b Hb).
Qed.

Lemma login_finish_failure : forall B email d f,
  eq_str (field d (lit "result") JNull) (lit "success") = false ->
  login_finish B email (JDict d) f = Ok (JDict d, f).
Proof.
  intros B email d f H. unfold login_finish. rewrite py_get_field.
  cbn [bind]. now rewrite H.
Qed.

Lemma login_finish_success : forall B email d m mid f,
  eq_str (field d (lit "result") JNull) (lit "success") = true ->
  field d (lit "member") (JDict []) = JDict m ->
  py_int B (field m (lit "tableId") (JInt 0)) = Ok mid ->
  login_finish B email (JDict d) f
  = (f' <- save_auth mid (field d (lit "token") (JStr []))
             (field m (lit "email") (JStr email)) f ;;
     Ok (JDict d, f')).
Proof.
  intros B email d m mid f Hres Hm Hint. unfold login_finish.
  rewrite !py_get_field. cbn [bind]. rewrite Hres, Hm.
  rewrite !py_get_field. cbn [bind]. rewrite Hint. reflexivity.
Qed.

Lemma login_finish_member_not_mapping : forall B email d mv f,
  eq_str (field d (lit "result") JNull) (lit "success") = true ->
  dict_get d (lit "member") = Some mv ->
  (forall m, mv <> JDict m) ->
  login_finish B email (JDict d) f = Raise AttributeError.
Proof.
  intros B email d mv f Hres Hmv Hnm. unfold login_finish.
  rewrite !py_get_field. cbn [bind]. rewrite Hres.
  unfold field at 1. rewrite Hmv.
  destruct mv; try reflexivity. now destruct (Hnm d0).
Qed.

(** C4 (the code at the failing input): when the server answers
    [{"result": "success", "member": null}], [login] raises [AttributeError]:
    it returns no response and writes no credentials, although the result is
    ["success"].  The same happens for every success answer whose [member]
    is not a mapping, and for an answer that is not a mapping at all.  The
    rest is as the claim has it: an answer with another [result] is returned
    as it is and leaves the credential file as it was; a success answer
    whose [member] is a mapping (or is absent) and whose [tableId] [int]
    accepts is returned, and the member id, the token and the e-mail are
    stored with mode 0o600 over whatever the file held, so that [load_auth]
    reads them back. *)
Theorem login_raises_on_null_member :
  login no_conversions tape_a
    (answering "{'result': 'success', 'member': null}")
    (lit "a@b.c") (lit "pw") stored_record
  = Raise AttributeError
  /\ login no_conversions tape_a (answering "[]")
       (lit "a@b.c") (lit "pw") stored_record
     = Raise AttributeError
  /\ (forall B rnd net email password f body d mv,
        encrypt_form rnd (login_form email password) = Ok body ->
        _post net (lit "tMemberLogin.thtml") (JStr body) true = Ok (JDict d) ->
        eq_str (field d (lit "result") JNull) (lit "success") = true ->
        dict_get d (lit "member") = Some mv ->
        (forall m, mv <> JDict m) ->
        login B rnd net email password f = Raise AttributeError)
  /\ (forall B rnd net email password f body d,
        encrypt_form rnd (login_form email password) = Ok body ->
        _post net (lit "tMemberLogin.thtml") (JStr body) true = Ok (JDict d) ->
        eq_str (field d (lit "result") JNull) (lit "success") = false ->
        login B rnd net email password f = Ok (JDict d, f))
  /\ (forall B rnd net email password f body d m mid,
        encrypt_form rnd (login_form email password) = Ok body ->
        _post net (lit "tMemberLogin.thtml") (JStr body) true = Ok (JDict d) ->
        eq_str (field d (lit "result") JNull) (lit "success") = true ->
        field d (lit "member") (JDict []) = JDict m ->
        py_int B (field m (lit "tableId") (JInt 0)) = Ok mid ->
        plain true (field d (lit "token") (JStr [])) = true ->
        plain true (field m (lit "email") (JStr email)) = true ->
        exists content,
          login B rnd net email password f
          = Ok (JDict d, Present content 384)
          /\ load_auth (Present content 384)
             = Ok (credential_record mid (field d (lit "token") (JStr []))
                     (field m (lit "email") (JStr email))))
  /\ login no_conversions tape_a (answering "{'result': 'fail'}")
       (lit "a@b.c") (lit "pw") stored_record
     = Ok (JDict [(lit "result", JStr (lit "fail"))], stored_record)
  /\ login no_conversions tape_a
       (answering
          "{'result': 'success', 'token': 'tok', 'member': {'tableId': 42, 'email': 'a@b.c'}}")
       (lit "a@b.c") (lit "pw") stored_record
     = Ok (JDict sample_success,
           Present
             (map byte_of_N
                (credential_text 42 (JStr (lit "tok")) (JStr (lit "a@b.c"))))
             384).
Proof.
  split; [|split; [|split; [|split; [|split; [|split]]]]].
  - rewrite (sample_login _ _ (JDict [(lit "result", JStr (lit "success"));
                                      (lit "member", JNull)]));
      [reflexivity|vm_compute; reflexivity].
  - rewrite (sample_login _ _ (JList []));
      [reflexivity|vm_compute; reflexivity].
  - intros B rnd net email password f body d mv Henc Hpost Hres Hmv Hnm.
    rewrite (login_unfold _ _ _ _ _ _ _ _ Henc Hpost).
    now apply (login_finish_member_not_mapping _ _ _ mv).
  - intros B rnd net email password f body d Henc Hpost Hres.
    rewrite (login_unfold _ _ _ _ _ _ _ _ Henc Hpost).
    now apply login_finish_failure.
  - intros B rnd net email password f body d m mid
      Henc Hpost Hres Hm Hint Htok Hem.
    rewrite (login_unfold _ _ _ _ _ _ _ _ Henc Hpost).
    rewrite (login_finish_success _ _ _ m mid _ Hres Hm Hint).
    destruct (save_auth_then_load mid _ _ f Htok Hem) as [Hs Hl].
    rewrite Hs. cbn [bind]. eauto.
  - rewrite (sample_login _ _ (JDict [(lit "result", JStr (lit "fail"))]));
      [reflexivity|vm_compute; reflexivity].
  - rewrite (sample_login _ _ (JDict sample_success));
      [|vm_compute; reflexivity].
    rewrite (login_finish_success _ _ _ sample_member 42 _); reflexivity.
Qed.

(** ** The envelope of the authenticated calls *)

Lemma create_recipe_form_inv : forall member_id a now_ms f form,
  create_recipe_form member_id a now_ms f = Ok form ->
  exists tok,
    _make_base_form member_id [] f = Ok (base_fields member_id tok)
    /\ form = base_fields member_id tok ++ recipe_fields a now_ms.
Proof.
  intros m a now f form H. unfold create_recipe_form in H.
  destruct (_make_base_form m [] f) as [base|e] eqn:Eb; [|discriminate H].
  cbn [bind] in H. apply Ok_inj in H.
  destruct (make_base_form_inv m [] f base Eb) as [tok ->].
  exists tok. split; [reflexivity|]. rewrite <- H. reflexivity.
Qed.







(** ** The pour list *)

(** C7: for every pour list that JSON can carry, the envelope of
    [create_recipe] holds under [pourDataJSONStr] a string, the compact JSON
    text of the list, and parsing that string gives the list back, with its
    pours and their fields in their order; the text has no blank outside
    the strings of the list.  The encoding is double: the envelope is itself
    written as JSON, and parsing the text of the envelope and then its
    [pourDataJSONStr] string gives the list as well. *)
Theorem pour_data_json_round_trip : forall member_id a now_ms f form l,
  pour_list a = Some l ->
  plain false (JList l) = true ->
  no_nan (JList l) = true ->
  create_recipe_form member_id a now_ms f = Ok form ->
  exists t,
    dict_get form (lit "pourDataJSONStr") = Some (JStr t)
    /\ t = Json.dumps false (lit ",") (lit ":") (JList l)
    /\ Json.loads t = Ok (JList l)
    /\ (no_blank (JList l) = true -> Forall (fun c => (33 <= c)%N) t)
    /\ (plain false (JDict form) = true ->
        decode_pour_data (Json.dumps false (lit ",") (lit ":") (JDict form))
        = Ok (JList l)).
Proof.
  intros m a now f form l Hl Hp _ H.
  destruct (create_recipe_form_inv m a now f form H) as (tok & _ & ->).
  assert (Heff : effective_pour_list a = l)
    by (unfold effective_pour_list; now rewrite Hl).
  assert (Hloads : Json.loads (Json.dumps false (lit ",") (lit ":") (JList l))
                   = Ok (JList l)).
  { change (lit ",") with (44%N :: []). change (lit ":") with (58%N :: []).
    now apply loads_dumps. }
  assert (Hget : dict_get (base_fields m tok ++ recipe_fields a now)
                   (lit "pourDataJSONStr")
                 = Some (JStr (Json.dumps false (lit ",") (lit ":")
                                 (JList l)))).
  { rewrite <- Heff. reflexivity. }
  exists (Json.dumps false (lit ",") (lit ":") (JList l)).
  split; [exact Hget|]. split; [reflexivity|]. split; [exact Hloads|].
  split; [apply dumps_compact_printable|].
  intros Hform. unfold decode_pour_data.
  assert (Houter : Json.loads
                     (Json.dumps false (lit ",") (lit ":")
                        (JDict (base_fields m tok ++ recipe_fields a now)))
                   = Ok (JDict (base_fields m tok ++ recipe_fields a now))).
  { change (lit ",") with (44%N :: []). change (lit ":") with (58%N :: []).
    now apply loads_dumps. }
  rewrite Houter. cbn [bind]. rewrite py_get_field. cbn [bind].
  unfold field. rewrite Hget. exact Hloads.
Qed.

Lemma pour_data_json_round_trip_witness :
  exists t,
    dict_get
      (base_fields 7 (JStr (lit "abc"))
       ++ recipe_fields template_args 1700000000000)
      (lit "pourDataJSONStr") = Some (JStr t)
    /\ t = Json.dumps false (lit ",") (lit ":") (JList template_pour_list)
    /\ Json.loads t = Ok (JList template_pour_list)
    /\ (no_blank (JList template_pour_list) = true ->
        Forall (fun c => (33 <= c)%N) t)
    /\ (plain false
          (JDict (base_fields 7 (JStr (lit "abc"))
                  ++ recipe_fields template_args 1700000000000)) = true ->
        decode_pour_data
          (Json.dumps false (lit ",") (lit ":")
             (JDict (base_fields 7 (JStr (lit "abc"))
                     ++ recipe_fields template_args 1700000000000)))
        = Ok (JList template_pour_list)).
Proof.
  apply (pour_data_json_round_trip 7 template_args 1700000000000
           stored_record
           (base_fields 7 (JStr (lit "abc"))
            ++ recipe_fields template_args 1700000000000)
           template_pour_list); vm_compute; reflexivity.
Defined.
